(** * JointController: a shallow embedding of
      src/systems/joint_controller/JointController.cc

    The system holds the latest velocity command of one joint and, on every
    simulation step ([PreUpdate]), forwards it to the entity-component store:
    directly as a velocity command, or through a PID controller as a force
    command.

    Conventions of the embedding.
    - A C++ [double] is an exact rational ([Q]): rounding, infinities and NaN
      are outside the model.  Values are only moved around by the controller,
      except for one subtraction.
    - [Entity] is the unsigned 64-bit entity id, [kNullEntity] is 0.
    - [std::chrono::steady_clock::duration] is its signed tick count.
    - Every call that leaves the system (console, store, PID) is recorded in
      a list of [Call]s next to the state it produces.
    - [gz::math::PID] belongs to the math library and is an interface here
      ([PIDClass]); module [PIDSpec] gives the instance described by the
      design document. *)

From Stdlib Require Import QArith Lqa ZArith Lia.
From stdpp Require Import gmap strings list.

(** ** Scalars, entities, component types *)

Abbreviation double := Q (only parsing).
Definition Entity : Type := N.

(** Modelled from the spec: [kNullEntity] (gz/sim/Entity.hh is not among the
    verified files).  The actuator handle starts out as the null sentinel,
    and the constructor leaves [jointEntity] value-initialised, so the
    sentinel is 0. *)
Definition kNullEntity : Entity := 0%N.

Definition duration : Type := Z.

Inductive ComponentTypeId : Type :=
  | JointVelocity
  | JointForceCmd
  | JointVelocityCmd.

#[global] Instance ComponentTypeId_eq_dec : EqDecision ComponentTypeId.
Proof. solve_decision. Defined.

Definition ComponentTypeId_to_nat (t : ComponentTypeId) : nat :=
  match t with JointVelocity => 0 | JointForceCmd => 1 | JointVelocityCmd => 2 end.

Definition ComponentTypeId_of_nat (n : nat) : option ComponentTypeId :=
  match n with
  | 0 => Some JointVelocity
  | 1 => Some JointForceCmd
  | 2 => Some JointVelocityCmd
  | _ => None
  end.

#[global] Instance ComponentTypeId_countable : Countable ComponentTypeId.
Proof.
  apply (inj_countable ComponentTypeId_to_nat ComponentTypeId_of_nat).
  by intros [].
Defined.

(** ** The entity-component store *)

(** Modelled from the spec: [EntityComponentManager] and [Model]
    (gz/sim/EntityComponentManager.hh and gz/sim/Model.hh are not among
    the verified files).  The store contract of the design document is: read
    a component keyed by the actuator handle, create or overwrite a component
    keyed by the actuator handle; a creation may be rejected by the store.
    [components] maps (entity, component type) to the component's data
    vector, [modelNames] holds the entities that are models with their names,
    [joints] resolves (model, joint name) to the joint entity. *)
Record EntityComponentManager : Type := mkEcm {
  components : gmap (Entity * ComponentTypeId) (list double);
  modelNames : gmap Entity string;
  joints : gmap (Entity * string) Entity
}.

Definition set_components (ecm : EntityComponentManager)
    (c : gmap (Entity * ComponentTypeId) (list double)) : EntityComponentManager :=
  {| components := c; modelNames := modelNames ecm; joints := joints ecm |}.

(** Modelled from the spec: [_ecm.Component<T>(entity)], a pointer to the
    component, [nullptr] ([None]) when the entity has none. *)
Definition Component (ecm : EntityComponentManager) (e : Entity)
    (t : ComponentTypeId) : option (list double) :=
  components ecm !! (e, t).

(** Modelled from the spec: assignment of the data of a component through
    the pointer returned by [Component] or by a creation. *)
Definition SetData (ecm : EntityComponentManager) (e : Entity)
    (t : ComponentTypeId) (data : list double) : EntityComponentManager :=
  set_components ecm (<[(e, t) := data]> (components ecm)).

(** Modelled from the spec: [Model::Valid], the entity is a model. *)
Definition Model_Valid (ecm : EntityComponentManager) (m : Entity) : bool :=
  bool_decide (is_Some (modelNames ecm !! m)).

(** Modelled from the spec: [Model::Name], empty for an entity without
    name. *)
Definition Model_Name (ecm : EntityComponentManager) (m : Entity) : string :=
  default EmptyString (modelNames ecm !! m).

(** Modelled from the spec: [Model::JointByName], the lookup of a named
    actuator under its owning model; [kNullEntity] when there is none. *)
Definition Model_JointByName (ecm : EntityComponentManager) (m : Entity)
    (name : string) : Entity :=
  default kNullEntity (joints ecm !! (m, name)).

(** ** Configuration, per-step information, calls *)

(** The plugin's [<plugin>] SDF element, already parsed: [None] is an
    element that is not present. *)
Record SdfElement : Type := mkSdf {
  sdf_joint_name : option string;
  sdf_initial_velocity : option double;
  sdf_use_force_commands : option bool;
  sdf_p_gain : option double;
  sdf_i_gain : option double;
  sdf_d_gain : option double;
  sdf_i_max : option double;
  sdf_i_min : option double;
  sdf_cmd_max : option double;
  sdf_cmd_min : option double;
  sdf_cmd_offset : option double;
  sdf_topic : option string
}.

(** The two fields of [UpdateInfo] that [PreUpdate] reads. *)
Record UpdateInfo : Type := mkInfo {
  dt : duration;
  paused : bool
}.

Inductive Level : Type := ignerr | ignwarn | ignmsg | igndbg.

Inductive Call : Type :=
  | Console (l : Level)
  | Subscribe (topic : string)
  | JointByName (m : Entity) (name : string)
  | GetComponent (e : Entity) (t : ComponentTypeId)
  | CreateComponentCall (e : Entity) (t : ComponentTypeId) (data : list double)
  | DataAt (e : Entity) (t : ComponentTypeId) (i : nat)
  | DataAssign (e : Entity) (t : ComponentTypeId) (i : nat) (v : double)
  | PidInit
  | PidUpdate (error : double).

(** A call that creates or writes component [t]. *)
Definition mutates (t : ComponentTypeId) (c : Call) : bool :=
  match c with
  | CreateComponentCall _ t' _ => bool_decide (t' = t)
  | DataAssign _ t' _ _ => bool_decide (t' = t)
  | _ => false
  end.

Definition mutates_store (c : Call) : bool :=
  match c with
  | CreateComponentCall _ _ _ | DataAssign _ _ _ _ => true
  | _ => false
  end.

Definition is_lookup (c : Call) : bool :=
  match c with JointByName _ _ => true | _ => false end.

(** The element index a call reads or assigns, if it accesses the data of a
    component. *)
Definition element_index (c : Call) : option nat :=
  match c with
  | DataAt _ _ i | DataAssign _ _ i _ => Some i
  | _ => None
  end.

(** A call that accesses no element but element 0. *)
Definition index0 (c : Call) : Prop :=
  forall i, element_index c = Some i -> i = 0.

(** The data of a component beyond element 0 (the further axes of a
    multi-axis joint); empty when the component does not exist. *)
Definition further_axes (ecm : EntityComponentManager) (e : Entity)
    (t : ComponentTypeId) : list double :=
  tail (default [] (Component ecm e t)).


(** ** The PID interface *)

(** [math::PID] as the controller uses it: default construction, [Init]
    and [Update], which returns the command and advances the state. *)
Class PIDClass (PID : Type) : Type := {
  PID_new : PID;
  PID_Init : PID -> double -> double -> double -> double -> double ->
             double -> double -> double -> PID;
  PID_Update : PID -> double -> duration -> double * PID
}.

(** The controller [P], except that [Update] is handed the duration [d]
    whatever the duration of the step. *)
Definition PID_at_dt {PID : Type} (P : PIDClass PID) (d : duration) : PIDClass PID :=
  {| PID_new := PID_new;
     PID_Init := PID_Init;
     PID_Update := fun pid error _ => PID_Update pid error d |}.

(** ** The PID controller of the design document *)

Module PIDSpec.

Local Open Scope Q_scope.

Definition Qltb (x y : Q) : bool := negb (Qle_bool y x).

(** Clamp [v] into [[lo, hi]]. *)
Definition clamp (v lo hi : Q) : Q :=
  if Qltb v lo then lo else if Qltb hi v then hi else v.

(** Modelled from the spec: the state of [math::PID] (gz/math/PID.hh
    belongs to the math library and is not among the verified files):
    gains, clamps, offset, the integral accumulator, the previous error and
    the flag of the first update. *)
Record PID : Type := mkPID {
  p : double;
  i : double;
  d : double;
  iMax : double;
  iMin : double;
  cmdMax : double;
  cmdMin : double;
  offset : double;
  integral : double;
  previousError : double;
  firstUpdate : bool
}.

(** Modelled from the spec: [math::PID::Init]: the accumulator and the
    previous error start at 0, and the next update is the first one. *)
Definition Init (p i d iMax iMin cmdMax cmdMin offset : double) : PID :=
  mkPID p i d iMax iMin cmdMax cmdMin offset 0 0 true.

(** Modelled from the spec: a default-constructed [math::PID] carries the
    defaults of the configuration table. *)
Definition new : PID :=
  Init 1 0 0 1 (-1) 1000 (-1000) 0.

(** Modelled from the spec: [math::PID::Update(error, dt)], [dt] in
    seconds: the command and the state after the update. *)
Definition Update (pid : PID) (error dt : double) : double * PID :=
  let pTerm := (p pid * error)%Q in
  let acc :=
    if Qltb 0 dt
    then clamp (integral pid + error * dt) (iMin pid) (iMax pid)
    else integral pid in
  let dTerm :=
    if firstUpdate pid || Qle_bool dt 0
    then 0%Q
    else (d pid * (error - previousError pid) / dt)%Q in
  let raw := (pTerm + i pid * acc + dTerm + offset pid)%Q in
  (clamp raw (cmdMin pid) (cmdMax pid),
   mkPID (p pid) (i pid) (d pid) (iMax pid) (iMin pid) (cmdMax pid)
         (cmdMin pid) (offset pid) acc error false).

(** The state after a sequence of updates. *)
Fixpoint updates (pid : PID) (calls : list (double * double)) : PID :=
  match calls with
  | [] => pid
  | (error, dt) :: calls => updates (snd (Update pid error dt)) calls
  end.

(** [std::chrono::duration<double>] of a tick count: ticks of
    [steady_clock] are nanoseconds. *)
Definition seconds (t : duration) : double := (inject_Z t / 1000000000)%Q.

(** The design document on the accumulator: after each update of a sequence
    of updates of a freshly initialised controller, it lies within
    [[iMin, iMax]]. *)
Definition integral_always_clamped_as_stated : Prop :=
  forall p i d iMax iMin cmdMax cmdMin offset calls,
    calls <> [] ->
    iMin <= integral (updates (Init p i d iMax iMin cmdMax cmdMin offset) calls) /\
    integral (updates (Init p i d iMax iMin cmdMax cmdMin offset) calls) <= iMax.


#[global] Instance PID_PIDClass : PIDClass PID := {|
  PID_new := new;
  PID_Init := fun _ => Init;
  PID_Update := fun pid error t => Update pid error (seconds t)
|}.

End PIDSpec.

(** ** The controller *)

Section JointController.

Context {PID : Type} `{PIDClass PID}.

(** Whether the store accepts [_ecm.CreateComponent(entity, T(data))] in its
    current state; the design document leaves the reasons for a rejection to
    the store. *)
Variable accepts : EntityComponentManager -> Entity -> ComponentTypeId -> bool.

(** The data of a default-constructed [components::JointVelocity()]
    (gz/sim/components/JointVelocity.hh is not among the verified files). *)
Variable JointVelocity_new : list double.

(** Modelled from the spec: [_ecm.CreateComponent(entity, T(data))]; a
    rejected request leaves the store as it is. *)
Definition CreateComponent (ecm : EntityComponentManager) (e : Entity)
    (t : ComponentTypeId) (data : list double) : EntityComponentManager :=
  if accepts ecm e t then SetData ecm e t data else ecm.

(** [JointControllerPrivate].  [node] is the list of topics the transport
    node is subscribed to; [jointVelCmdMutex] only serialises [OnCmdVel] with
    the read in [PreUpdate], which are separate events here. *)
Record JointControllerPrivate : Type := mkPrivate {
  node : list string;
  jointEntity : Entity;
  jointName : string;
  jointVelCmd : double;
  model : Entity;
  useForceCommands : bool;
  velPid : PID
}.

Definition set_jointEntity (this : JointControllerPrivate) (e : Entity) :=
  mkPrivate (node this) e (jointName this) (jointVelCmd this) (model this)
            (useForceCommands this) (velPid this).

Definition set_jointName (this : JointControllerPrivate) (s : string) :=
  mkPrivate (node this) (jointEntity this) s (jointVelCmd this) (model this)
            (useForceCommands this) (velPid this).

Definition set_jointVelCmd (this : JointControllerPrivate) (v : double) :=
  mkPrivate (node this) (jointEntity this) (jointName this) v (model this)
            (useForceCommands this) (velPid this).

Definition set_model (this : JointControllerPrivate) (m : Entity) :=
  mkPrivate (node this) (jointEntity this) (jointName this) (jointVelCmd this) m
            (useForceCommands this) (velPid this).

Definition set_useForceCommands (this : JointControllerPrivate) (b : bool) :=
  mkPrivate (node this) (jointEntity this) (jointName this) (jointVelCmd this)
            (model this) b (velPid this).

Definition set_velPid (this : JointControllerPrivate) (p : PID) :=
  mkPrivate (node this) (jointEntity this) (jointName this) (jointVelCmd this)
            (model this) (useForceCommands this) p.

Definition set_node (this : JointControllerPrivate) (n : list string) :=
  mkPrivate n (jointEntity this) (jointName this) (jointVelCmd this)
            (model this) (useForceCommands this) (velPid this).

(** [JointController::JointController]: [std::make_unique<JointControllerPrivate>()]
    value-initialises the object, so the members without an initialiser
    ([jointEntity], [jointVelCmd]) start at zero; [model] and
    [useForceCommands] have initialisers. *)
Definition JointController_new : JointControllerPrivate :=
  {| node := [];
     jointEntity := 0%N;
     jointName := EmptyString;
     jointVelCmd := 0%Q;
     model := kNullEntity;
     useForceCommands := false;
     velPid := PID_new |}.

(** [JointController::Configure]: the new private data and the calls made. *)
Definition Configure (this : JointControllerPrivate) (entity : Entity)
    (sdf : SdfElement) (ecm : EntityComponentManager)
    : JointControllerPrivate * list Call :=
  let this := set_model this entity in
  if negb (Model_Valid ecm (model this)) then (this, [Console ignerr]) else
  let this := set_jointName this (default EmptyString (sdf_joint_name sdf)) in
  if String.eqb (jointName this) EmptyString then (this, [Console ignerr]) else
  let '(this, log1) :=
    match sdf_initial_velocity sdf with
    | Some v => (set_jointVelCmd this v, [Console ignmsg])
    | None => (this, [])
    end in
  let '(this, log2) :=
    match sdf_use_force_commands sdf with
    | Some true =>
        let this := set_useForceCommands this true in
        let p := default (1%Q) (sdf_p_gain sdf) in
        let i := default (0%Q) (sdf_i_gain sdf) in
        let d := default (0%Q) (sdf_d_gain sdf) in
        let iMax := default (1%Q) (sdf_i_max sdf) in
        let iMin := default ((-1)%Q) (sdf_i_min sdf) in
        let cmdMax := default (1000%Q) (sdf_cmd_max sdf) in
        let cmdMin := default ((-1000)%Q) (sdf_cmd_min sdf) in
        let cmdOffset := default (0%Q) (sdf_cmd_offset sdf) in
        (set_velPid this
           (PID_Init (velPid this) p i d iMax iMin cmdMax cmdMin cmdOffset),
         PidInit :: replicate 9 (Console igndbg))
    | _ => (this, [Console igndbg])
    end in
  let topic :=
    match sdf_topic sdf with
    | Some t => t
    | None => String.append "/model/"
                (String.append (Model_Name ecm (model this))
                   (String.append "/joint/"
                      (String.append (jointName this) "/cmd_vel")))
    end in
  (set_node this (node this ++ [topic]),
   log1 ++ log2 ++ [Subscribe topic; Console ignmsg]).

(** [JointControllerPrivate::OnCmdVel]. *)
Definition OnCmdVel (this : JointControllerPrivate) (msg : double)
    : JointControllerPrivate :=
  set_jointVelCmd this msg.

(** What a call of [PreUpdate] leaves behind. *)
Record StepResult : Type := mkResult {
  res_this : JointControllerPrivate;
  res_ecm : EntityComponentManager;
  res_calls : list Call
}.

(** How [PreUpdate] ends: it returns, [std::vector::at] throws
    [std::out_of_range], or [operator[]] is applied to an empty vector, where
    the language defines no behaviour (only the calls made so far are kept). *)
Inductive Outcome : Type :=
  | Returned (r : StepResult)
  | Throws_out_of_range (r : StepResult)
  | Undefined (calls : list Call).

Definition outcome_calls (o : Outcome) : list Call :=
  match o with
  | Returned r | Throws_out_of_range r => res_calls r
  | Undefined calls => calls
  end.

Definition outcome_result (o : Outcome) : option StepResult :=
  match o with
  | Returned r | Throws_out_of_range r => Some r
  | Undefined _ => None
  end.

(** Lines 160-166: the warning about a jump back in time. *)
Definition warn_rewind (info : UpdateInfo) : list Call :=
  if (dt info <? 0)%Z then [Console ignwarn] else [].

(** Lines 168-173: look for the joint while it has not been identified. *)
Definition resolve (this : JointControllerPrivate) (ecm : EntityComponentManager)
    : JointControllerPrivate * list Call :=
  if N.eqb (jointEntity this) kNullEntity
  then (set_jointEntity this (Model_JointByName ecm (model this) (jointName this)),
        [JointByName (model this) (jointName this)])
  else (this, []).

(** Lines 205-215 and 221-233: create the command component holding [v], or
    assign element 0 of the existing one. *)
Definition write_cmd (this : JointControllerPrivate) (ecm : EntityComponentManager)
    (t : ComponentTypeId) (v : double) (calls : list Call) : Outcome :=
  let e := jointEntity this in
  let calls := calls ++ [GetComponent e t] in
  match Component ecm e t with
  | None =>
      Returned (mkResult this (CreateComponent ecm e t [v])
                         (calls ++ [CreateComponentCall e t [v]]))
  | Some [] => Undefined (calls ++ [DataAssign e t 0 v])
  | Some (_ :: rest) =>
      Returned (mkResult this (SetData ecm e t (v :: rest))
                         (calls ++ [DataAssign e t 0 v]))
  end.

(** [JointController::PreUpdate]. *)
Definition PreUpdate (this : JointControllerPrivate) (info : UpdateInfo)
    (ecm : EntityComponentManager) : Outcome :=
  let calls := warn_rewind info in
  let '(this, look) := resolve this ecm in
  let calls := calls ++ look in
  if N.eqb (jointEntity this) kNullEntity then Returned (mkResult this ecm calls) else
  if paused info then Returned (mkResult this ecm calls) else
  let e := jointEntity this in
  let jointVelComp := Component ecm e JointVelocity in
  let calls := calls ++ [GetComponent e JointVelocity] in
  match jointVelComp with
  | None =>
      Returned (mkResult this (CreateComponent ecm e JointVelocity JointVelocity_new)
                  (calls ++ [CreateComponentCall e JointVelocity JointVelocity_new]))
  | Some vel =>
      let targetVel := jointVelCmd this in
      if useForceCommands this then
        let calls := calls ++ [DataAt e JointVelocity 0] in
        match vel with
        | [] => Throws_out_of_range (mkResult this ecm calls)
        | v0 :: _ =>
            let error := (v0 - targetVel)%Q in
            let '(force, pid) := PID_Update (velPid this) error (dt info) in
            write_cmd (set_velPid this pid) ecm JointForceCmd force
                      (calls ++ [PidUpdate error])
        end
      else
        write_cmd this ecm JointVelocityCmd targetVel calls
  end.

(** ** Sequences of events *)

(** The host calls [PreUpdate] with the store as the other systems left it;
    the transport thread calls [OnCmdVel] between two reads of the command. *)
Inductive Event : Type :=
  | CmdVelMsg (msg : double)
  | Step (info : UpdateInfo) (ecm : EntityComponentManager).

(** The steps of a run, each with the store it was given and its outcome.
    An outcome other than [Returned] leaves the system, and the run ends. *)
Fixpoint run (this : JointControllerPrivate) (evs : list Event)
    : list (EntityComponentManager * Outcome) :=
  match evs with
  | [] => []
  | CmdVelMsg msg :: evs => run (OnCmdVel this msg) evs
  | Step info ecm :: evs =>
      let o := PreUpdate this info ecm in
      (ecm, o) ::
      match o with
      | Returned r => run (res_this r) evs
      | _ => []
      end
  end.

(** The private data after a run (at the point where the run ends). *)
Fixpoint final (this : JointControllerPrivate) (evs : list Event)
    : JointControllerPrivate :=
  match evs with
  | [] => this
  | CmdVelMsg msg :: evs => final (OnCmdVel this msg) evs
  | Step info ecm :: evs =>
      match PreUpdate this info ecm with
      | Returned r => final (res_this r) evs
      | Throws_out_of_range r => res_this r
      | Undefined _ => this
      end
  end.

(** ** Vocabulary of the properties *)

(** The joint entity a step works with: the one already identified, or the
    one the lookup of this step finds. *)
Definition joint_of_step (this : JointControllerPrivate)
    (ecm : EntityComponentManager) : Entity :=
  jointEntity (fst (resolve this ecm)).

(** The calls of a step up to the lookup of the measured velocity. *)
Definition calls_to_velocity (this : JointControllerPrivate) (info : UpdateInfo)
    (ecm : EntityComponentManager) : list Call :=
  (warn_rewind info ++ snd (resolve this ecm)) ++
  [GetComponent (joint_of_step this ecm) JointVelocity].

(** [Configure] logs its error and returns early: the entity is not a model,
    or the [joint_name] element is empty or missing. *)
Definition Configure_fails (entity : Entity) (sdf : SdfElement)
    (ecm : EntityComponentManager) : Prop :=
  Model_Valid ecm entity = false \/
  default EmptyString (sdf_joint_name sdf) = EmptyString.

(** The outcome [o] with the warning about a jump back in time logged
    before everything else. *)
Definition with_warning (o : Outcome) : Outcome :=
  match o with
  | Returned r =>
      Returned (mkResult (res_this r) (res_ecm r) (Console ignwarn :: res_calls r))
  | Throws_out_of_range r =>
      Throws_out_of_range
        (mkResult (res_this r) (res_ecm r) (Console ignwarn :: res_calls r))
  | Undefined calls => Undefined (Console ignwarn :: calls)
  end.


Definition is_step (ev : Event) : bool :=
  match ev with Step _ _ => true | CmdVelMsg _ => false end.


(** The command component that the mode of [this] does not use. *)
Definition unused_cmd (this : JointControllerPrivate) : ComponentTypeId :=
  if useForceCommands this then JointVelocityCmd else JointForceCmd.

(** The command component that the mode of [this] uses. *)
Definition used_cmd (this : JointControllerPrivate) : ComponentTypeId :=
  if useForceCommands this then JointForceCmd else JointVelocityCmd.

(** A step neither creates nor writes component [t]: no call does, and the
    store it leaves holds the same [t] components as the store it was given. *)
Definition step_leaves (t : ComponentTypeId)
    (s : EntityComponentManager * Outcome) : Prop :=
  Forall (fun c => mutates t c = false) (outcome_calls (snd s)) /\
  forall r, outcome_result (snd s) = Some r ->
            forall e, Component (res_ecm r) e t = Component (fst s) e t.

(** ** The claims that do not hold as the design document states them *)



(** The design document on the force command: on every force-mode step
    that reaches the command computation the PID state advances, the step
    returns, and the force-command slot of the joint then holds the force at
    element 0, created when it was absent and overwritten otherwise. *)
Definition force_command_as_stated : Prop :=
  forall this info ecm v0 vs force pid,
    useForceCommands this = true ->
    joint_of_step this ecm <> kNullEntity ->
    paused info = false ->
    Component ecm (joint_of_step this ecm) JointVelocity = Some (v0 :: vs) ->
    PID_Update (velPid this) (v0 - jointVelCmd this)%Q (dt info) = (force, pid) ->
    exists r rest, PreUpdate this info ecm = Returned r /\
                   velPid (res_this r) = pid /\
                   Component (res_ecm r) (joint_of_step this ecm) JointForceCmd =
                     Some (force :: rest).


(** ** Vocabulary of the further properties *)

Definition is_pid_update (c : Call) : bool :=
  match c with PidUpdate _ => true | _ => false end.

Definition is_data_read (c : Call) : bool :=
  match c with DataAt _ _ _ => true | _ => false end.

Definition is_throw (o : Outcome) : bool :=
  match o with Throws_out_of_range _ => true | _ => false end.

(** The step calls [velPid.Update]: force mode, joint identified, not
    paused, and a measured velocity with an element 0. *)
Definition reaches_pid (this : JointControllerPrivate) (info : UpdateInfo)
    (ecm : EntityComponentManager) : bool :=
  useForceCommands this &&
  negb (N.eqb (joint_of_step this ecm) kNullEntity) &&
  negb (paused info) &&
  match Component ecm (joint_of_step this ecm) JointVelocity with
  | Some (_ :: _) => true
  | _ => false
  end.

(** Where the store differs after a step, if anywhere: at one component
    of the joint. *)
Definition touches (ecm ecm' : EntityComponentManager) (e : Entity)
    (t : ComponentTypeId) : Prop :=
  modelNames ecm' = modelNames ecm /\ joints ecm' = joints ecm /\
  forall e' t', (e, t) <> (e', t') -> Component ecm' e' t' = Component ecm e' t'.

Definition is_subscribe (c : Call) : bool :=
  match c with Subscribe _ => true | _ => false end.

(** [Configure] gets past its two checks: the entity is a model and the
    [joint_name] element is not empty. *)
Definition Configure_ok (entity : Entity) (sdf : SdfElement)
    (ecm : EntityComponentManager) : bool :=
  Model_Valid ecm entity &&
  negb (String.eqb (default EmptyString (sdf_joint_name sdf)) EmptyString).


(** The command messages of the transport thread, delivered in order. *)
Definition deliver (this : JointControllerPrivate) (msgs : list double)
    : JointControllerPrivate :=
  foldl OnCmdVel this msgs.

(** The members that [Configure] sets and nothing else assigns. *)
Definition same_configuration (a b : JointControllerPrivate) : Prop :=
  node a = node b /\ jointName a = jointName b /\ model a = model b /\
  useForceCommands a = useForceCommands b.

(** A step that neither reads the measured velocity, nor calls the PID
    controller, nor throws, and that keeps the PID state. *)
Definition step_without_pid (pid : PID)
    (s : EntityComponentManager * Outcome) : Prop :=
  is_throw (snd s) = false /\
  Forall (fun c => is_pid_update c = false /\ is_data_read c = false)
         (outcome_calls (snd s)) /\
  forall r, outcome_result (snd s) = Some r -> velPid (res_this r) = pid.

(** A step at which the lookup of the joint is made once and fails: it
    returns with the store and the private data as they were. *)
Definition step_retries (this : JointControllerPrivate)
    (s : EntityComponentManager * Outcome) : Prop :=
  exists r, snd s = Returned r /\ res_ecm r = fst s /\
            jointEntity (res_this r) = kNullEntity /\
            same_configuration (res_this r) this /\
            velPid (res_this r) = velPid this /\
            length (filter (fun c => is_lookup c = true) (res_calls r)) = 1 /\
            Forall (fun c => mutates_store c = false) (res_calls r).


End JointController.

(** ** A small world *)

Module Examples.

(** A store that accepts every creation. *)
Definition accept_all : EntityComponentManager -> Entity -> ComponentTypeId -> bool :=
  fun _ _ _ => true.

(** Model 1, named robot, with the joint arm as entity 2. *)
Definition world : EntityComponentManager :=
  mkEcm ∅ {[ 1%N := "robot"%string ]} {[ (1%N, "arm"%string) := 2%N ]}.

(** The same world once the physics system has filled in the velocities of
    the two axes of the joint. *)
Definition world_moving : EntityComponentManager :=
  SetData world 2%N JointVelocity [3%Q; 7%Q].


Definition sdf_velocity : SdfElement :=
  mkSdf (Some "arm"%string) None None None None None None None None None None None.

Definition sdf_force : SdfElement :=
  mkSdf (Some "arm"%string) None (Some true) None (Some 1%Q) None None None None None
        None None.


Definition velocity_controller : JointControllerPrivate (PID := PIDSpec.PID) :=
  fst (Configure JointController_new 1%N sdf_velocity world).

Definition force_controller : JointControllerPrivate (PID := PIDSpec.PID) :=
  fst (Configure JointController_new 1%N sdf_force world).

(** The controllers after the step that found the joint. *)
Definition velocity_resolved : JointControllerPrivate (PID := PIDSpec.PID) :=
  fst (resolve velocity_controller world).

Definition force_resolved : JointControllerPrivate (PID := PIDSpec.PID) :=
  fst (resolve force_controller world).

(** A step of one millisecond, a paused step, a step back in time. *)
Definition tick : UpdateInfo := mkInfo 1000000%Z false.
Definition tick_paused : UpdateInfo := mkInfo 0%Z true.
Definition tick_back : UpdateInfo := mkInfo (-1000000)%Z false.

(** Model 1 before its joint is there. *)
Definition world_empty : EntityComponentManager :=
  mkEcm ∅ {[ 1%N := "robot"%string ]} ∅.

(** The world right after the creation of the measured-velocity component,
    with no element yet. *)
Definition world_created : EntityComponentManager :=
  SetData world 2%N JointVelocity [].


(** A store that rejects every creation. *)
Definition reject_all : EntityComponentManager -> Entity -> ComponentTypeId -> bool :=
  fun _ _ _ => false.

(** The moving world with a force-command component that holds no
    element. *)
Definition world_force_empty : EntityComponentManager :=
  SetData world_moving 2%N JointForceCmd [].


End Examples.

(** * Properties *)

Section JointControllerProperties.

Context {PID : Type} `{PIDClass PID}.
Variable accepts : EntityComponentManager -> Entity -> ComponentTypeId -> bool.
Variable JointVelocity_new : list double.

Local Abbreviation CreateComponent := (CreateComponent accepts).
Local Abbreviation write_cmd := (write_cmd accepts).
Local Abbreviation PreUpdate := (PreUpdate accepts JointVelocity_new).
Local Abbreviation run := (run accepts JointVelocity_new).
Local Abbreviation final := (final accepts JointVelocity_new).

Implicit Types (this : JointControllerPrivate (PID := PID))
  (ecm : EntityComponentManager) (info : UpdateInfo) (e : Entity)
  (t : ComponentTypeId) (o : Outcome (PID := PID)).

Lemma resolve_resolved this ecm :
  jointEntity this <> kNullEntity -> resolve this ecm = (this, []).
Proof.
  intros Hne. unfold resolve.
  destruct (N.eqb_spec (jointEntity this) kNullEntity); [contradiction | done].
Qed.

Lemma Component_SetData ecm e t data e' t' :
  Component (SetData ecm e t data) e' t' =
  if decide ((e, t) = (e', t')) then Some data else Component ecm e' t'.
Proof. unfold Component, SetData. simpl. apply lookup_insert. Qed.

Lemma Component_SetData_other_type ecm e t data e' t' :
  t <> t' -> Component (SetData ecm e t data) e' t' = Component ecm e' t'.
Proof.
  intros Hne. rewrite Component_SetData.
  destruct (decide _) as [Heq|]; [congruence | done].
Qed.

Lemma Component_CreateComponent_other_type ecm e t data e' t' :
  t <> t' -> Component (CreateComponent ecm e t data) e' t' = Component ecm e' t'.
Proof.
  intros Hne. unfold CreateComponent.
  destruct (accepts ecm e t); [by apply Component_SetData_other_type | done].
Qed.

(** [write_cmd] touches component type [t] only. *)
Lemma write_cmd_frame this ecm t v calls t' :
  t <> t' ->
  Forall (fun c => mutates t' c = false) calls ->
  Forall (fun c => mutates t' c = false) (outcome_calls (write_cmd this ecm t v calls)) /\
  forall r, outcome_result (write_cmd this ecm t v calls) = Some r ->
            res_this r = this /\
            forall e', Component (res_ecm r) e' t' = Component ecm e' t'.
Proof.
  intros Hne Hcalls. unfold write_cmd.
  assert (Hm : forall c, mutates t' c = false ->
                 Forall (fun c => mutates t' c = false)
                   ((calls ++ [GetComponent (jointEntity this) t]) ++ [c])).
  { intros c Hc. rewrite !Forall_app. repeat split; auto. }
  destruct (Component ecm (jointEntity this) t) as [[|f0 fs]|]; simpl.
  - split; [|discriminate]. apply Hm. simpl. by rewrite bool_decide_eq_false.
  - split.
    + apply Hm. simpl. by rewrite bool_decide_eq_false.
    + intros r [= <-]. simpl. split; [done|]. intros e'.
      by apply Component_SetData_other_type.
  - split.
    + apply Hm. simpl. by rewrite bool_decide_eq_false.
    + intros r [= <-]. simpl. split; [done|]. intros e'.
      by apply Component_CreateComponent_other_type.
Qed.

(** The calls of [write_cmd]: the lookup of the component, then its creation
    or the assignment of element 0. *)
Lemma write_cmd_calls this ecm t v calls :
  exists c, outcome_calls (write_cmd this ecm t v calls) =
              calls ++ [GetComponent (jointEntity this) t; c] /\
            (c = CreateComponentCall (jointEntity this) t [v] \/
             c = DataAssign (jointEntity this) t 0 v).
Proof.
  unfold write_cmd.
  destruct (Component ecm (jointEntity this) t) as [[|f0 fs]|]; simpl;
    rewrite <- app_assoc; simpl; eauto.
Qed.

Lemma write_cmd_this this ecm t v calls r :
  outcome_result (write_cmd this ecm t v calls) = Some r -> res_this r = this.
Proof.
  unfold write_cmd.
  destruct (Component ecm (jointEntity this) t) as [[|f0 fs]|]; simpl;
    [discriminate | by intros [= <-] ..].
Qed.

Lemma write_cmd_no_lookup this ecm t v calls :
  Forall (fun c => is_lookup c = false) calls ->
  Forall (fun c => is_lookup c = false) (outcome_calls (write_cmd this ecm t v calls)).
Proof.
  intros Hcalls. destruct (write_cmd_calls this ecm t v calls) as (c & -> & Hc).
  apply Forall_app. split; [done|].
  repeat constructor. by destruct Hc as [-> | ->].
Qed.

Lemma warn_rewind_no_lookup info :
  Forall (fun c => is_lookup c = false) (warn_rewind info).
Proof. unfold warn_rewind. destruct (dt info <? 0)%Z; repeat constructor. Qed.


(** ** Paused steps *)

(** A paused step returns with the store as it was, and changes nothing of
    the private data but, possibly, the joint entity it has just found. *)
Lemma PreUpdate_paused_general this info ecm :
  paused info = true ->
  exists r, PreUpdate this info ecm = Returned r /\
            res_ecm r = ecm /\
            res_this r = fst (resolve this ecm) /\
            Forall (fun c => mutates_store c = false) (res_calls r).
Proof.
  intros Hp. unfold PreUpdate, warn_rewind. rewrite Hp.
  destruct (resolve this ecm) as [this1 look] eqn:Hres. simpl.
  assert (Hlook : Forall (fun c => mutates_store c = false) look).
  { unfold resolve in Hres. destruct (N.eqb _ _); inversion Hres; subst; repeat constructor. }
  destruct (N.eqb (jointEntity this1) kNullEntity);
    (eexists; split; [reflexivity|]; simpl; repeat split;
     apply Forall_app; split; [destruct (dt info <? 0)%Z; repeat constructor | done]).
Qed.

(** C3. On a step with the pause flag set and the joint already resolved,
    [PreUpdate] returns with the store unchanged and the private data
    unchanged (in particular the PID state [velPid] and the command
    [jointVelCmd]), and none of its calls creates or writes a component. *)
Theorem PreUpdate_paused_noop this info ecm :
  paused info = true ->
  jointEntity this <> kNullEntity ->
  exists r, PreUpdate this info ecm = Returned r /\
            res_ecm r = ecm /\
            res_this r = this /\
            velPid (res_this r) = velPid this /\
            jointVelCmd (res_this r) = jointVelCmd this /\
            Forall (fun c => mutates_store c = false) (res_calls r).
Proof.
  intros Hp Hne.
  destruct (PreUpdate_paused_general this info ecm Hp) as (r & Hr & Hecm & Hthis & Hcalls).
  rewrite (resolve_resolved _ _ Hne) in Hthis. simpl in Hthis.
  exists r. rewrite Hthis. repeat split; done.
Qed.


(** ** Resolution *)

(** A step that starts with the joint resolved performs no lookup and keeps
    the joint entity. *)
Lemma PreUpdate_resolved_step this info ecm :
  jointEntity this <> kNullEntity ->
  Forall (fun c => is_lookup c = false) (outcome_calls (PreUpdate this info ecm)) /\
  forall r, outcome_result (PreUpdate this info ecm) = Some r ->
            jointEntity (res_this r) = jointEntity this.
Proof.
  intros Hne. unfold PreUpdate. rewrite (resolve_resolved _ _ Hne).
  rewrite app_nil_r.
  pose proof (warn_rewind_no_lookup info) as Hw.
  destruct (N.eqb (jointEntity this) kNullEntity); [split; [done | by intros r [= <-]]|].
  destruct (paused info); [split; [done | by intros r [= <-]]|].
  assert (Hw1 : Forall (fun c => is_lookup c = false)
                  (warn_rewind info ++ [GetComponent (jointEntity this) JointVelocity])).
  { apply Forall_app. split; [done | repeat constructor]. }
  destruct (Component ecm (jointEntity this) JointVelocity) as [vel|]; simpl.
  - destruct (useForceCommands this).
    + assert (Hw2 : Forall (fun c => is_lookup c = false)
                  ((warn_rewind info ++ [GetComponent (jointEntity this) JointVelocity])
                     ++ [DataAt (jointEntity this) JointVelocity 0])).
      { apply Forall_app. split; [done | repeat constructor]. }
      destruct vel as [|v0 vs]; simpl; [split; [done | by intros r [= <-]]|].
      destruct (PID_Update _ _ _) as [force pid]. split.
      * apply write_cmd_no_lookup. apply Forall_app. split; [done | repeat constructor].
      * intros r Hr. by rewrite (write_cmd_this _ _ _ _ _ _ Hr).
    + split; [by apply write_cmd_no_lookup|].
      intros r Hr. by rewrite (write_cmd_this _ _ _ _ _ _ Hr).
  - split; [|by intros r [= <-]].
    apply Forall_app. split; [done | repeat constructor].
Qed.

(** C8. From a state in which the joint entity is resolved (not
    [kNullEntity]), over any sequence of command messages and steps: no step
    calls [JointByName], every step leaves the joint entity as it was, and
    the joint entity at the end of the run is the one at its start. *)
Theorem resolution_monotone this evs :
  jointEntity this <> kNullEntity ->
  jointEntity (final this evs) = jointEntity this /\
  Forall (fun s : EntityComponentManager * Outcome =>
            Forall (fun c => is_lookup c = false) (outcome_calls (snd s)) /\
            forall r, outcome_result (snd s) = Some r ->
                      jointEntity (res_this r) = jointEntity this)
         (run this evs).
Proof.
  revert this. induction evs as [|[msg|info ecm] evs IH]; intros this Hne; simpl.
  - split; [done | constructor].
  - apply (IH (OnCmdVel this msg)). done.
  - destruct (PreUpdate_resolved_step this info ecm Hne) as [Hcalls Hkeep].
    destruct (PreUpdate this info ecm) as [r|r|calls] eqn:Hstep; simpl in *.
    + assert (Hr : jointEntity (res_this r) = jointEntity this) by by apply Hkeep.
      destruct (IH (res_this r)) as [Hfin Hrun]; [by rewrite Hr|].
      rewrite Hr in Hfin, Hrun. split; [done|].
      constructor; [by split | done].
    + split; [by apply Hkeep|]. constructor; [by split | constructor].
    + split; [done|]. constructor; [by split | constructor].
Qed.


(** ** Mode exclusivity *)

Lemma resolve_frame this ecm t :
  useForceCommands (fst (resolve this ecm)) = useForceCommands this /\
  Forall (fun c => mutates t c = false) (snd (resolve this ecm)).
Proof. unfold resolve. destruct (N.eqb _ _); simpl; repeat constructor. Qed.

Lemma warn_rewind_frame info t :
  Forall (fun c => mutates t c = false) (warn_rewind info).
Proof. unfold warn_rewind. destruct (dt info <? 0)%Z; repeat constructor. Qed.

Lemma unused_cmd_neq this :
  unused_cmd this <> JointVelocity /\
  (useForceCommands this = true -> JointForceCmd <> unused_cmd this) /\
  (useForceCommands this = false -> JointVelocityCmd <> unused_cmd this).
Proof. unfold unused_cmd. destruct (useForceCommands this); repeat split; congruence. Qed.

(** One step: the mode is kept and the unused command component is left. *)
Lemma PreUpdate_mode_step this info ecm :
  step_leaves (unused_cmd this) (ecm, PreUpdate this info ecm) /\
  forall r, PreUpdate this info ecm = Returned r ->
            useForceCommands (res_this r) = useForceCommands this.
Proof.
  unfold step_leaves, PreUpdate. simpl.
  destruct (resolve_frame this ecm (unused_cmd this)) as [Hmode Hlook].
  destruct (resolve this ecm) as [this1 look]. simpl in Hmode, Hlook.
  assert (Hu : unused_cmd this1 = unused_cmd this) by (unfold unused_cmd; by rewrite Hmode).
  destruct (unused_cmd_neq this1) as (Hvel & Hforce & Hvelcmd). rewrite Hu in *.
  set (t' := unused_cmd this) in *.
  assert (H0 : Forall (fun c => mutates t' c = false) (warn_rewind info ++ look)).
  { apply Forall_app. split; [apply warn_rewind_frame | done]. }
  destruct (N.eqb (jointEntity this1) kNullEntity);
    [repeat split; [done | by intros r [= <-] | by intros r [= <-]]|].
  destruct (paused info);
    [repeat split; [done | by intros r [= <-] | by intros r [= <-]]|].
  assert (H1 : Forall (fun c => mutates t' c = false)
                 ((warn_rewind info ++ look) ++ [GetComponent (jointEntity this1) JointVelocity])).
  { apply Forall_app. split; [done | repeat constructor]. }
  destruct (Component ecm (jointEntity this1) JointVelocity) as [vel|]; simpl.
  - destruct (useForceCommands this1) eqn:Hm.
    + assert (H2 : Forall (fun c => mutates t' c = false)
                     (((warn_rewind info ++ look) ++
                       [GetComponent (jointEntity this1) JointVelocity]) ++
                      [DataAt (jointEntity this1) JointVelocity 0])).
      { apply Forall_app. split; [done | repeat constructor]. }
      destruct vel as [|v0 vs]; simpl;
        [repeat split; [done | by intros r [= <-] | discriminate]|].
      destruct (PID_Update _ _ _) as [force pid].
      match goal with |- context [write_cmd ?a ?b ?c ?d ?l] =>
        destruct (write_cmd_frame a b c d l t') as [Hc Hr] end.
      { by apply Hforce. }
      { apply Forall_app. split; [done | repeat constructor]. }
      repeat split; [done | intros r Hres; by apply Hr |].
      intros r Hres. destruct (Hr r) as [-> _]; [by rewrite Hres | simpl; congruence].
    + destruct (write_cmd_frame this1 ecm JointVelocityCmd (jointVelCmd this1) _ t'
                  (Hvelcmd eq_refl) H1) as [Hc Hr].
      repeat split; [done | intros r Hres; by apply Hr |].
      intros r Hres. destruct (Hr r) as [-> _]; [by rewrite Hres | simpl; congruence].
  - repeat split.
    + apply Forall_app. split; [done|]. repeat constructor. simpl.
      by rewrite bool_decide_eq_false.
    + intros r [= <-] e. simpl. apply Component_CreateComponent_other_type. congruence.
    + by intros r [= <-].
Qed.

(** C4. Over any sequence of command messages and steps, an instance in
    velocity mode ([useForceCommands] false) makes no call that creates or
    writes a [JointForceCmd] component and every step leaves the
    [JointForceCmd] components of the store as they were; an instance in
    force mode does the same for [JointVelocityCmd]. *)
Theorem mode_exclusivity this evs :
  Forall (step_leaves (if useForceCommands this then JointVelocityCmd else JointForceCmd))
         (run this evs).
Proof.
  change (Forall (step_leaves (unused_cmd this)) (run this evs)).
  revert this. induction evs as [|[msg|info ecm] evs IH]; intros this; simpl.
  - constructor.
  - apply (IH (OnCmdVel this msg)).
  - destruct (PreUpdate_mode_step this info ecm) as [Hstep Hmode].
    constructor; [done|].
    destruct (PreUpdate this info ecm) as [r|r|calls]; [|constructor..].
    replace (unused_cmd this) with (unused_cmd (res_this r)); [apply IH|].
    unfold unused_cmd. by rewrite (Hmode r eq_refl).
Qed.


(** ** The command computation *)

Lemma write_cmd_absent this ecm t v calls :
  Component ecm (jointEntity this) t = None ->
  write_cmd this ecm t v calls =
  Returned (mkResult this (CreateComponent ecm (jointEntity this) t [v])
              (calls ++ [GetComponent (jointEntity this) t;
                         CreateComponentCall (jointEntity this) t [v]])).
Proof. intros Hc. unfold write_cmd. rewrite Hc, <- app_assoc. done. Qed.

Lemma write_cmd_present this ecm t v calls f0 fs :
  Component ecm (jointEntity this) t = Some (f0 :: fs) ->
  write_cmd this ecm t v calls =
  Returned (mkResult this (SetData ecm (jointEntity this) t (v :: fs))
              (calls ++ [GetComponent (jointEntity this) t;
                         DataAssign (jointEntity this) t 0 v])).
Proof. intros Hc. unfold write_cmd. rewrite Hc, <- app_assoc. done. Qed.

Lemma resolve_fields this ecm :
  jointVelCmd (fst (resolve this ecm)) = jointVelCmd this /\
  velPid (fst (resolve this ecm)) = velPid this /\
  useForceCommands (fst (resolve this ecm)) = useForceCommands this.
Proof. unfold resolve. by destruct (N.eqb _ _). Qed.

(** A force-mode step that finds a measured velocity [v0] hands
    [v0 - jointVelCmd] to the PID controller and passes its command on to
    [write_cmd]. *)
Lemma PreUpdate_force_reaches this info ecm v0 vs force pid :
  useForceCommands this = true ->
  joint_of_step this ecm <> kNullEntity ->
  paused info = false ->
  Component ecm (joint_of_step this ecm) JointVelocity = Some (v0 :: vs) ->
  PID_Update (velPid this) (v0 - jointVelCmd this)%Q (dt info) = (force, pid) ->
  PreUpdate this info ecm =
  write_cmd (set_velPid (fst (resolve this ecm)) pid) ecm JointForceCmd force
    ((calls_to_velocity this info ecm ++ [DataAt (joint_of_step this ecm) JointVelocity 0])
       ++ [PidUpdate (v0 - jointVelCmd this)%Q]).
Proof.
  unfold calls_to_velocity, joint_of_step, PreUpdate.
  intros Hmode Hne Hp Hvel Hpid.
  destruct (resolve_fields this ecm) as (Hcmd & Hvp & Hm).
  destruct (resolve this ecm) as [this1 look]. simpl in *.
  destruct (N.eqb_spec (jointEntity this1) kNullEntity); [contradiction|].
  rewrite Hp, Hvel, Hm, Hmode, Hcmd, Hvp, Hpid. done.
Qed.

(** A velocity-mode step that finds the measured-velocity component passes
    [jointVelCmd] on to [write_cmd]. *)
Lemma PreUpdate_velocity_reaches this info ecm vel :
  useForceCommands this = false ->
  joint_of_step this ecm <> kNullEntity ->
  paused info = false ->
  Component ecm (joint_of_step this ecm) JointVelocity = Some vel ->
  PreUpdate this info ecm =
  write_cmd (fst (resolve this ecm)) ecm JointVelocityCmd (jointVelCmd this)
    (calls_to_velocity this info ecm).
Proof.
  unfold calls_to_velocity, joint_of_step, PreUpdate.
  intros Hmode Hne Hp Hvel.
  destruct (resolve_fields this ecm) as (Hcmd & Hvp & Hm).
  destruct (resolve this ecm) as [this1 look]. simpl in *.
  destruct (N.eqb_spec (jointEntity this1) kNullEntity); [contradiction|].
  rewrite Hp, Hvel, Hm, Hmode, Hcmd. done.
Qed.

(** A step that finds no measured-velocity component requests its creation
    and returns. *)
Lemma PreUpdate_velocity_absent this info ecm :
  joint_of_step this ecm <> kNullEntity ->
  paused info = false ->
  Component ecm (joint_of_step this ecm) JointVelocity = None ->
  PreUpdate this info ecm =
  Returned (mkResult (fst (resolve this ecm))
              (CreateComponent ecm (joint_of_step this ecm) JointVelocity JointVelocity_new)
              (calls_to_velocity this info ecm ++
               [CreateComponentCall (joint_of_step this ecm) JointVelocity JointVelocity_new])).
Proof.
  unfold calls_to_velocity, joint_of_step, PreUpdate.
  intros Hne Hp Hvel.
  destruct (resolve this ecm) as [this1 look]. simpl in *.
  destruct (N.eqb_spec (jointEntity this1) kNullEntity); [contradiction|].
  rewrite Hp, Hvel. done.
Qed.

Lemma Component_SetData_same ecm e t data :
  Component (SetData ecm e t data) e t = Some data.
Proof. rewrite Component_SetData. by destruct (decide _). Qed.

Lemma Component_CreateComponent_accepted ecm e t data :
  accepts ecm e t = true ->
  Component (CreateComponent ecm e t data) e t = Some data.
Proof. intros Ha. unfold CreateComponent. rewrite Ha. apply Component_SetData_same. Qed.

(** C5 (amended). On a force-mode step that reaches the command
    computation (joint resolved, not paused, measured velocity [v0] present):
    the PID state after the step and the force are those returned by
    [PID_Update velPid (v0 - jointVelCmd) dt]; when the joint has no
    [JointForceCmd] component, its creation with data [[force]] is requested,
    and the component holds [[force]] when the store accepts the request;
    when it has one with an element 0, that element is replaced by [force]
    and the further elements are kept. *)
Theorem PreUpdate_force_command this info ecm v0 vs force pid :
  useForceCommands this = true ->
  joint_of_step this ecm <> kNullEntity ->
  paused info = false ->
  Component ecm (joint_of_step this ecm) JointVelocity = Some (v0 :: vs) ->
  PID_Update (velPid this) (v0 - jointVelCmd this)%Q (dt info) = (force, pid) ->
  In (PidUpdate (v0 - jointVelCmd this)%Q) (outcome_calls (PreUpdate this info ecm)) /\
  (Component ecm (joint_of_step this ecm) JointForceCmd = None ->
   exists r, PreUpdate this info ecm = Returned r /\
     velPid (res_this r) = pid /\
     res_ecm r = CreateComponent ecm (joint_of_step this ecm) JointForceCmd [force] /\
     last (res_calls r) =
       Some (CreateComponentCall (joint_of_step this ecm) JointForceCmd [force]) /\
     (accepts ecm (joint_of_step this ecm) JointForceCmd = true ->
      Component (res_ecm r) (joint_of_step this ecm) JointForceCmd = Some [force])) /\
  (forall f0 fs,
   Component ecm (joint_of_step this ecm) JointForceCmd = Some (f0 :: fs) ->
   exists r, PreUpdate this info ecm = Returned r /\
     velPid (res_this r) = pid /\
     res_ecm r = SetData ecm (joint_of_step this ecm) JointForceCmd (force :: fs) /\
     last (res_calls r) =
       Some (DataAssign (joint_of_step this ecm) JointForceCmd 0 force) /\
     Component (res_ecm r) (joint_of_step this ecm) JointForceCmd = Some (force :: fs)).
Proof.
  intros Hmode Hne Hp Hvel Hpid.
  rewrite (PreUpdate_force_reaches _ _ _ _ _ _ _ Hmode Hne Hp Hvel Hpid).
  set (this2 := set_velPid (fst (resolve this ecm)) pid).
  assert (He : jointEntity this2 = joint_of_step this ecm) by done.
  repeat split.
  - destruct (write_cmd_calls this2 ecm JointForceCmd force
      ((calls_to_velocity this info ecm ++ [DataAt (joint_of_step this ecm) JointVelocity 0])
         ++ [PidUpdate (v0 - jointVelCmd this)%Q])) as (c & -> & _).
    rewrite !in_app_iff. left. right. by left.
  - intros Hnone. rewrite write_cmd_absent by exact Hnone. rewrite He.
    eexists. split; [reflexivity|]. cbn [res_this res_ecm res_calls].
    repeat split.
    + rewrite last_app. done.
    + by apply Component_CreateComponent_accepted.
  - intros f0 fs Hsome. rewrite (write_cmd_present _ _ _ _ _ f0 fs) by exact Hsome.
    rewrite He. eexists. split; [reflexivity|]. cbn [res_this res_ecm res_calls].
    repeat split.
    + rewrite last_app. done.
    + apply Component_SetData_same.
Qed.


(** ** The measured-velocity component *)




(** ** Element 0 only *)

Lemma write_cmd_index0 this ecm t v calls :
  Forall index0 calls -> Forall index0 (outcome_calls (write_cmd this ecm t v calls)).
Proof.
  intros Hcalls. destruct (write_cmd_calls this ecm t v calls) as (c & -> & Hc).
  apply Forall_app. split; [done|].
  constructor; [by intros i|]. constructor; [|constructor].
  destruct Hc as [-> | ->]; intros i; simpl; congruence.
Qed.

Lemma further_axes_SetData ecm e t data e' t' :
  tail data = further_axes ecm e t ->
  further_axes (SetData ecm e t data) e' t' = further_axes ecm e' t'.
Proof.
  intros Htail. unfold further_axes in *. rewrite Component_SetData.
  destruct (decide _) as [[= <- <-]|]; done.
Qed.

Lemma write_cmd_further_axes this ecm t v calls r :
  outcome_result (write_cmd this ecm t v calls) = Some r ->
  forall e' t', further_axes (res_ecm r) e' t' = further_axes ecm e' t'.
Proof.
  unfold write_cmd.
  destruct (Component ecm (jointEntity this) t) as [[|f0 fs]|] eqn:Hc; simpl;
    [discriminate | intros [= <-] e' t'; simpl ..].
  - apply further_axes_SetData. unfold further_axes. by rewrite Hc.
  - unfold CreateComponent. destruct (accepts _ _ _); [|done].
    apply further_axes_SetData. unfold further_axes. by rewrite Hc.
Qed.

(** [write_cmd] reads the store at the command component only. *)
Lemma write_cmd_congr this ecm1 ecm2 t v calls :
  Component ecm1 (jointEntity this) t = Component ecm2 (jointEntity this) t ->
  outcome_calls (write_cmd this ecm1 t v calls) =
    outcome_calls (write_cmd this ecm2 t v calls) /\
  res_this <$> outcome_result (write_cmd this ecm1 t v calls) =
    res_this <$> outcome_result (write_cmd this ecm2 t v calls).
Proof.
  intros Hc. unfold write_cmd. rewrite Hc.
  by destruct (Component ecm2 (jointEntity this) t) as [[|f0 fs]|].
Qed.

Lemma calls_to_velocity_index0 this info ecm :
  Forall index0 (calls_to_velocity this info ecm).
Proof.
  unfold calls_to_velocity, warn_rewind, resolve.
  destruct (dt info <? 0)%Z, (N.eqb _ _); simpl; repeat constructor; by intros i.
Qed.

(** C10. On a step that reaches the command computation with a non-empty
    measured-velocity vector [v0 :: vs]: [PreUpdate] does not throw
    [std::out_of_range]; every element access it makes is at index 0; the
    elements beyond index 0 of every component are left as they were; and the
    calls and the private data of the step do not depend on [vs]. *)
Theorem PreUpdate_element0_only this info ecm v0 vs :
  joint_of_step this ecm <> kNullEntity ->
  paused info = false ->
  Component ecm (joint_of_step this ecm) JointVelocity = Some (v0 :: vs) ->
  (forall r, PreUpdate this info ecm <> Throws_out_of_range r) /\
  Forall index0 (outcome_calls (PreUpdate this info ecm)) /\
  (forall r, outcome_result (PreUpdate this info ecm) = Some r ->
             forall e t, further_axes (res_ecm r) e t = further_axes ecm e t) /\
  (forall vs',
     outcome_calls
       (PreUpdate this info
          (SetData ecm (joint_of_step this ecm) JointVelocity (v0 :: vs'))) =
       outcome_calls (PreUpdate this info ecm) /\
     res_this <$> outcome_result
       (PreUpdate this info
          (SetData ecm (joint_of_step this ecm) JointVelocity (v0 :: vs'))) =
       res_this <$> outcome_result (PreUpdate this info ecm)).
Proof.
  intros Hne Hp Hvel.
  set (e := joint_of_step this ecm) in *.
  assert (Hother : forall vs' t, t <> JointVelocity ->
            Component (SetData ecm e JointVelocity (v0 :: vs')) e t = Component ecm e t).
  { intros vs' t Ht. apply Component_SetData_other_type. congruence. }
  destruct (useForceCommands this) eqn:Hmode.
  - destruct (PID_Update (velPid this) (v0 - jointVelCmd this)%Q (dt info))
      as [force pid] eqn:Hpid.
    rewrite (PreUpdate_force_reaches _ _ _ _ _ _ _ Hmode Hne Hp Hvel Hpid).
    repeat split.
    + intros r Hr.
      assert (Hsome : is_Some (outcome_result (Throws_out_of_range r))) by (simpl; eauto).
      rewrite <- Hr in Hsome. destruct Hsome as [r' Hr'].
      unfold write_cmd in Hr, Hr'.
      destruct (Component ecm _ JointForceCmd) as [[|f0 fs]|]; discriminate.
    + apply write_cmd_index0. rewrite !Forall_app. repeat split.
      * apply calls_to_velocity_index0.
      * repeat constructor. intros i [= <-]. done.
      * repeat constructor. by intros i.
    + intros r Hr. by apply (write_cmd_further_axes _ _ _ _ _ _ Hr).
    + rewrite (PreUpdate_force_reaches this info (SetData ecm e JointVelocity (v0 :: vs'))
                 v0 vs' force pid Hmode Hne Hp (Component_SetData_same _ _ _ _) Hpid).
      apply write_cmd_congr. by apply Hother.
    + rewrite (PreUpdate_force_reaches this info (SetData ecm e JointVelocity (v0 :: vs'))
                 v0 vs' force pid Hmode Hne Hp (Component_SetData_same _ _ _ _) Hpid).
      apply write_cmd_congr. by apply Hother.
  - rewrite (PreUpdate_velocity_reaches _ _ _ _ Hmode Hne Hp Hvel).
    repeat split.
    + intros r Hr. unfold write_cmd in Hr.
      destruct (Component ecm _ JointVelocityCmd) as [[|f0 fs]|]; discriminate.
    + apply write_cmd_index0. apply calls_to_velocity_index0.
    + intros r Hr. by apply (write_cmd_further_axes _ _ _ _ _ _ Hr).
    + rewrite (PreUpdate_velocity_reaches this info (SetData ecm e JointVelocity (v0 :: vs'))
                 (v0 :: vs') Hmode Hne Hp (Component_SetData_same _ _ _ _)).
      apply write_cmd_congr. by apply Hother.
    + rewrite (PreUpdate_velocity_reaches this info (SetData ecm e JointVelocity (v0 :: vs'))
                 (v0 :: vs') Hmode Hne Hp (Component_SetData_same _ _ _ _)).
      apply write_cmd_congr. by apply Hother.
Qed.


(** ** Configuration *)

Lemma PreUpdate_keeps_jointVelCmd this info ecm r :
  outcome_result (PreUpdate this info ecm) = Some r ->
  jointVelCmd (res_this r) = jointVelCmd this.
Proof.
  unfold PreUpdate.
  destruct (resolve_fields this ecm) as (Hcmd & _ & _).
  destruct (resolve this ecm) as [this1 look]. simpl in Hcmd. rewrite <- Hcmd.
  destruct (N.eqb (jointEntity this1) kNullEntity); [by intros [= <-]|].
  destruct (paused info); [by intros [= <-]|].
  destruct (Component ecm (jointEntity this1) JointVelocity) as [vel|];
    [|by intros [= <-]].
  destruct (useForceCommands this1).
  - destruct vel as [|v0 vs]; [by intros [= <-]|].
    destruct (PID_Update _ _ _) as [force pid].
    intros Hr. by rewrite (write_cmd_this _ _ _ _ _ _ Hr).
  - intros Hr. by rewrite (write_cmd_this _ _ _ _ _ _ Hr).
Qed.

Lemma final_steps_jointVelCmd this evs :
  Forall (fun ev => is_step ev = true) evs ->
  jointVelCmd (final this evs) = jointVelCmd this.
Proof.
  revert this. induction evs as [|[msg|info ecm] evs IH]; intros this Hev; simpl.
  - done.
  - inversion Hev; discriminate.
  - inversion Hev as [|? ? _ Hev']; subst.
    destruct (PreUpdate this info ecm) as [r|r|calls] eqn:Hstep; [| |done].
    + rewrite (IH _ Hev'). apply (PreUpdate_keeps_jointVelCmd this info ecm).
      by rewrite Hstep.
    + apply (PreUpdate_keeps_jointVelCmd this info ecm). by rewrite Hstep.
Qed.

Lemma Configure_jointVelCmd this entity sdf ecm :
  sdf_initial_velocity sdf = None ->
  jointVelCmd (fst (Configure this entity sdf ecm)) = jointVelCmd this.
Proof.
  intros Hnone. unfold Configure. rewrite Hnone.
  destruct (negb _); [done|]. simpl.
  destruct (String.eqb _ _); [done|].
  by destruct (sdf_use_force_commands sdf) as [[]|].
Qed.

(** C2. When the configuration has no [initial_velocity] element, the
    command held after construction and [Configure] is 0, and it is still 0
    after any sequence of steps in which no command message arrives. *)
Theorem jointVelCmd_initially_zero entity sdf ecm evs :
  sdf_initial_velocity sdf = None ->
  Forall (fun ev => is_step ev = true) evs ->
  jointVelCmd (fst (Configure JointController_new entity sdf ecm)) = 0%Q /\
  jointVelCmd (final (fst (Configure JointController_new entity sdf ecm)) evs) = 0%Q.
Proof.
  intros Hnone Hev.
  assert (H0 : jointVelCmd (fst (Configure JointController_new entity sdf ecm)) = 0%Q)
    by by rewrite Configure_jointVelCmd.
  split; [done|]. by rewrite final_steps_jointVelCmd.
Qed.


(** The private data a failed [Configure] leaves: nothing is set but the
    model, and no topic is subscribed. *)
Lemma Configure_failed_state entity sdf ecm :
  Configure_fails entity sdf ecm ->
  Configure JointController_new entity sdf ecm =
  (set_model JointController_new entity, [Console ignerr]).
Proof.
  intros [Hinvalid | Hname]; unfold Configure; simpl.
  - by rewrite Hinvalid.
  - destruct (negb _); [done|]. by rewrite Hname.
Qed.




(** * Further properties of the controller *)

(** ** The velocity command *)

(** X1. On a velocity-mode step that reaches the command (joint identified,
    not paused, measured-velocity component present): the private data is
    only changed by the lookup of the joint (the PID state is kept); when the
    joint has no [JointVelocityCmd] component, its creation with data
    [[jointVelCmd]] is requested (and the component holds it once the store
    accepts); when it has one with an element 0, that element is replaced by
    [jointVelCmd] and the further elements are kept; when it has one without
    elements, the assignment of element 0 is undefined. *)
Theorem PreUpdate_velocity_command this info ecm vel :
  useForceCommands this = false ->
  joint_of_step this ecm <> kNullEntity ->
  paused info = false ->
  Component ecm (joint_of_step this ecm) JointVelocity = Some vel ->
  (Component ecm (joint_of_step this ecm) JointVelocityCmd = None ->
   exists r, PreUpdate this info ecm = Returned r /\
     res_this r = fst (resolve this ecm) /\
     res_ecm r =
       CreateComponent ecm (joint_of_step this ecm) JointVelocityCmd [jointVelCmd this] /\
     last (res_calls r) =
       Some (CreateComponentCall (joint_of_step this ecm) JointVelocityCmd
               [jointVelCmd this]) /\
     (accepts ecm (joint_of_step this ecm) JointVelocityCmd = true ->
      Component (res_ecm r) (joint_of_step this ecm) JointVelocityCmd =
        Some [jointVelCmd this])) /\
  (forall f0 fs,
   Component ecm (joint_of_step this ecm) JointVelocityCmd = Some (f0 :: fs) ->
   exists r, PreUpdate this info ecm = Returned r /\
     res_this r = fst (resolve this ecm) /\
     last (res_calls r) =
       Some (DataAssign (joint_of_step this ecm) JointVelocityCmd 0 (jointVelCmd this)) /\
     Component (res_ecm r) (joint_of_step this ecm) JointVelocityCmd =
       Some (jointVelCmd this :: fs)) /\
  (Component ecm (joint_of_step this ecm) JointVelocityCmd = Some [] ->
   exists calls, PreUpdate this info ecm = Undefined calls).
Proof.
  intros Hmode Hne Hp Hvel.
  rewrite (PreUpdate_velocity_reaches _ _ _ _ Hmode Hne Hp Hvel).
  set (this1 := fst (resolve this ecm)).
  assert (He : jointEntity this1 = joint_of_step this ecm) by done.
  split; [|split].
  - intros Hnone. rewrite write_cmd_absent by exact Hnone. rewrite He.
    eexists. split; [reflexivity|]. cbn [res_this res_ecm res_calls].
    split; [done|]. split; [done|]. split; [by rewrite last_app|].
    by apply Component_CreateComponent_accepted.
  - intros f0 fs Hsome. rewrite (write_cmd_present _ _ _ _ _ f0 fs) by exact Hsome.
    rewrite He. eexists. split; [reflexivity|]. cbn [res_this res_ecm res_calls].
    split; [done|]. split; [by rewrite last_app|].
    apply Component_SetData_same.
  - intros Hempty. unfold write_cmd. rewrite He, Hempty. eauto.
Qed.

(** ** When the PID controller runs *)

Lemma count_app_one (P : Call -> bool) (l : list Call) (c : Call) :
  length (filter (fun x => P x = true) (l ++ [c])) =
  length (filter (fun x => P x = true) l) + (if P c then 1 else 0).
Proof.
  rewrite filter_app, length_app. f_equal.
  rewrite filter_cons, filter_nil. destruct (P c); by case_decide.
Qed.

Lemma write_cmd_count (P : Call -> bool) this ecm t v calls :
  (forall e t', P (GetComponent e t') = false) ->
  (forall e t' data, P (CreateComponentCall e t' data) = false) ->
  (forall e t' i x, P (DataAssign e t' i x) = false) ->
  length (filter (fun x => P x = true) (outcome_calls (write_cmd this ecm t v calls))) =
  length (filter (fun x => P x = true) calls).
Proof.
  intros Hget Hcreate Hassign.
  destruct (write_cmd_calls this ecm t v calls) as (c & -> & Hc).
  change [GetComponent (jointEntity this) t; c]
    with ([GetComponent (jointEntity this) t] ++ [c]).
  rewrite app_assoc, !count_app_one, Hget.
  destruct Hc as [-> | ->]; rewrite ?Hcreate, ?Hassign; lia.
Qed.

Lemma calls_to_velocity_count (P : Call -> bool) this info ecm :
  P (Console ignwarn) = false ->
  (forall m name, P (JointByName m name) = false) ->
  (forall e t', P (GetComponent e t') = false) ->
  length (filter (fun x => P x = true) (calls_to_velocity this info ecm)) = 0.
Proof.
  intros Hwarn Hlook Hget. unfold calls_to_velocity.
  rewrite count_app_one, Hget, filter_app, length_app.
  unfold warn_rewind, resolve.
  destruct (dt info <? 0)%Z, (N.eqb _ _); simpl;
    rewrite ?filter_cons, ?filter_nil, ?Hwarn, ?Hlook; repeat case_decide; done.
Qed.

(** What a step does when it does not get as far as the measured
    velocity: unresolved joint, or pause. *)
Lemma PreUpdate_stops_early this info ecm :
  joint_of_step this ecm = kNullEntity \/ paused info = true ->
  PreUpdate this info ecm =
  Returned (mkResult (fst (resolve this ecm)) ecm
              (warn_rewind info ++ snd (resolve this ecm))).
Proof.
  unfold joint_of_step, PreUpdate. intros Hstop.
  destruct (resolve this ecm) as [this1 look]. simpl in *.
  destruct (N.eqb_spec (jointEntity this1) kNullEntity); [done|].
  destruct Hstop as [? | ->]; done.
Qed.

Lemma early_calls_count (P : Call -> bool) this info ecm :
  P (Console ignwarn) = false ->
  (forall m name, P (JointByName m name) = false) ->
  length (filter (fun x => P x = true) (warn_rewind info ++ snd (resolve this ecm))) = 0.
Proof.
  intros Hwarn Hlook. rewrite filter_app, length_app.
  unfold warn_rewind, resolve.
  destruct (dt info <? 0)%Z, (N.eqb _ _); simpl;
    rewrite ?filter_cons, ?filter_nil, ?Hwarn, ?Hlook; repeat case_decide; done.
Qed.

(** A force-mode step that finds the measured-velocity component without
    elements. *)
Lemma PreUpdate_force_empty this info ecm :
  useForceCommands this = true ->
  joint_of_step this ecm <> kNullEntity ->
  paused info = false ->
  Component ecm (joint_of_step this ecm) JointVelocity = Some [] ->
  PreUpdate this info ecm =
  Throws_out_of_range
    (mkResult (fst (resolve this ecm)) ecm
       (calls_to_velocity this info ecm ++
        [DataAt (joint_of_step this ecm) JointVelocity 0])).
Proof.
  unfold calls_to_velocity, joint_of_step, PreUpdate.
  intros Hmode Hne Hp Hvel.
  destruct (resolve_fields this ecm) as (_ & _ & Hm).
  destruct (resolve this ecm) as [this1 look]. simpl in *.
  destruct (N.eqb_spec (jointEntity this1) kNullEntity); [contradiction|].
  by rewrite Hp, Hvel, Hm, Hmode.
Qed.

(** X2. [velPid.Update] is called exactly once on a step that is in force
    mode, has the joint identified, is not paused and finds a measured
    velocity with an element 0, and not at all on any other step; on any
    other step the PID state is the one the step started with. *)
Theorem PreUpdate_pid_update_count this info ecm :
  length (filter (fun c => is_pid_update c = true)
            (outcome_calls (PreUpdate this info ecm))) =
    (if reaches_pid this info ecm then 1 else 0) /\
  (reaches_pid this info ecm = false ->
   forall r, outcome_result (PreUpdate this info ecm) = Some r ->
             velPid (res_this r) = velPid this).
Proof.
  destruct (resolve_fields this ecm) as (_ & Hpid & _).
  unfold reaches_pid.
  destruct (N.eqb_spec (joint_of_step this ecm) kNullEntity) as [Hnull | Hne].
  { rewrite andb_false_r. simpl.
    rewrite PreUpdate_stops_early by by left. simpl.
    split; [by apply early_calls_count | by intros _ r [= <-]]. }
  destruct (paused info) eqn:Hp.
  { rewrite andb_false_r. simpl.
    rewrite PreUpdate_stops_early by by right. simpl.
    split; [by apply early_calls_count | by intros _ r [= <-]]. }
  rewrite !andb_true_r.
  destruct (Component ecm (joint_of_step this ecm) JointVelocity) as [vel|] eqn:Hvel.
  - destruct (useForceCommands this) eqn:Hmode; simpl.
    + destruct vel as [|v0 vs].
      * rewrite (PreUpdate_force_empty _ _ _ Hmode Hne Hp Hvel). simpl.
        split; [|by intros _ r [= <-]].
        rewrite count_app_one. simpl. by rewrite calls_to_velocity_count.
      * destruct (PID_Update (velPid this) (v0 - jointVelCmd this)%Q (dt info))
          as [force pid] eqn:Hupd.
        rewrite (PreUpdate_force_reaches _ _ _ _ _ _ _ Hmode Hne Hp Hvel Hupd).
        split; [|discriminate].
        rewrite write_cmd_count by done.
        rewrite !count_app_one. simpl. by rewrite calls_to_velocity_count.
    + rewrite (PreUpdate_velocity_reaches _ _ _ _ Hmode Hne Hp Hvel).
      split.
      * rewrite write_cmd_count by done. by rewrite calls_to_velocity_count.
      * intros _ r Hr. by rewrite (write_cmd_this _ _ _ _ _ _ Hr).
  - rewrite andb_false_r.
    rewrite (PreUpdate_velocity_absent _ _ _ Hne Hp Hvel). simpl.
    split; [|by intros _ r [= <-]].
    rewrite count_app_one. simpl. by rewrite calls_to_velocity_count.
Qed.

(** X3. In force mode, when the measured-velocity component of the joint
    exists but holds no element, [PreUpdate] throws [std::out_of_range] at
    [at(0)], before the PID controller is called: the store and the PID state
    are as they were, and no call creates or writes a component. *)
Theorem PreUpdate_force_empty_velocity_throws this info ecm :
  useForceCommands this = true ->
  joint_of_step this ecm <> kNullEntity ->
  paused info = false ->
  Component ecm (joint_of_step this ecm) JointVelocity = Some [] ->
  exists r, PreUpdate this info ecm = Throws_out_of_range r /\
            res_ecm r = ecm /\
            velPid (res_this r) = velPid this /\
            last (res_calls r) = Some (DataAt (joint_of_step this ecm) JointVelocity 0) /\
            Forall (fun c => mutates_store c = false /\ is_pid_update c = false)
                   (res_calls r).
Proof.
  intros Hmode Hne Hp Hvel.
  rewrite (PreUpdate_force_empty _ _ _ Hmode Hne Hp Hvel).
  eexists. split; [reflexivity|]. simpl.
  split; [done|]. split; [apply resolve_fields|]. split; [by rewrite last_app|].
  apply Forall_app. split; [|repeat constructor].
  unfold calls_to_velocity, warn_rewind, resolve.
  destruct (dt info <? 0)%Z, (N.eqb _ _); simpl; repeat constructor.
Qed.


(** ** What a step leaves alone *)

Lemma CreateComponent_cases ecm e t data :
  CreateComponent ecm e t data = SetData ecm e t data \/
  CreateComponent ecm e t data = ecm.
Proof. unfold CreateComponent. destruct (accepts ecm e t); auto. Qed.

Lemma Component_SetData_other ecm e t data e' t' :
  (e, t) <> (e', t') -> Component (SetData ecm e t data) e' t' = Component ecm e' t'.
Proof. intros Hne. rewrite Component_SetData. by destruct (decide _). Qed.

Lemma touches_refl ecm e t : touches ecm ecm e t.
Proof. by repeat split. Qed.

Lemma touches_SetData ecm e t data : touches ecm (SetData ecm e t data) e t.
Proof. repeat split. intros e' t' Hne. by apply Component_SetData_other. Qed.

Lemma touches_CreateComponent ecm e t data :
  touches ecm (CreateComponent ecm e t data) e t.
Proof.
  destruct (CreateComponent_cases ecm e t data) as [-> | ->];
    [apply touches_SetData | apply touches_refl].
Qed.

Lemma write_cmd_touches this ecm t v calls r :
  outcome_result (write_cmd this ecm t v calls) = Some r ->
  touches ecm (res_ecm r) (jointEntity this) t.
Proof.
  unfold write_cmd.
  destruct (Component ecm (jointEntity this) t) as [[|f0 fs]|]; simpl;
    [discriminate | intros [= <-]; simpl ..].
  - apply touches_SetData.
  - apply touches_CreateComponent.
Qed.

(** A step changes the store at one place at most: the measured-velocity
    component of the joint when the joint has none, the command component of
    the mode otherwise. *)
Lemma PreUpdate_touches this info ecm r :
  outcome_result (PreUpdate this info ecm) = Some r ->
  touches ecm (res_ecm r) (joint_of_step this ecm)
    (match Component ecm (joint_of_step this ecm) JointVelocity with
     | None => JointVelocity
     | Some _ => used_cmd this
     end).
Proof.
  destruct (N.eqb_spec (joint_of_step this ecm) kNullEntity) as [Hnull | Hne].
  { rewrite PreUpdate_stops_early by by left. intros [= <-]. apply touches_refl. }
  destruct (paused info) eqn:Hp.
  { rewrite PreUpdate_stops_early by by right. intros [= <-]. apply touches_refl. }
  destruct (Component ecm (joint_of_step this ecm) JointVelocity) as [vel|] eqn:Hvel.
  - unfold used_cmd. destruct (useForceCommands this) eqn:Hmode.
    + destruct vel as [|v0 vs].
      * rewrite (PreUpdate_force_empty _ _ _ Hmode Hne Hp Hvel).
        intros [= <-]. apply touches_refl.
      * destruct (PID_Update (velPid this) (v0 - jointVelCmd this)%Q (dt info))
          as [force pid] eqn:Hupd.
        rewrite (PreUpdate_force_reaches _ _ _ _ _ _ _ Hmode Hne Hp Hvel Hupd).
        intros Hr. apply (write_cmd_touches _ _ _ _ _ _ Hr).
    + rewrite (PreUpdate_velocity_reaches _ _ _ _ Hmode Hne Hp Hvel).
      intros Hr. apply (write_cmd_touches _ _ _ _ _ _ Hr).
  - rewrite (PreUpdate_velocity_absent _ _ _ Hne Hp Hvel).
    intros [= <-]. apply touches_CreateComponent.
Qed.

(** X4. Whatever a step does, it leaves the models and the joints of the
    store as they are, leaves every component of every entity other than the
    joint it controls as it is, and never changes a measured-velocity
    component that exists: it only ever creates a missing one. *)
Theorem PreUpdate_frame this info ecm r :
  outcome_result (PreUpdate this info ecm) = Some r ->
  modelNames (res_ecm r) = modelNames ecm /\
  joints (res_ecm r) = joints ecm /\
  (forall e t, e <> joint_of_step this ecm ->
               Component (res_ecm r) e t = Component ecm e t) /\
  (forall e vel, Component ecm e JointVelocity = Some vel ->
                 Component (res_ecm r) e JointVelocity = Some vel).
Proof.
  intros Hr. destruct (PreUpdate_touches _ _ _ _ Hr) as (Hm & Hj & Hother).
  repeat split; [done | done | |].
  - intros e t Hne. apply Hother. congruence.
  - intros e vel Hvel. rewrite <- Hvel. apply Hother.
    intros [= He Ht]. subst e. revert Ht.
    destruct (Component ecm (joint_of_step this ecm) JointVelocity); [|done].
    unfold used_cmd. by destruct (useForceCommands this).
Qed.

(** ** What never changes over a run *)

Lemma same_configuration_refl this : same_configuration this this.
Proof. by repeat split. Qed.

Lemma same_configuration_trans (a b c : JointControllerPrivate (PID := PID)) :
  same_configuration a b -> same_configuration b c -> same_configuration a c.
Proof.
  intros (? & ? & ? & ?) (? & ? & ? & ?). repeat split; congruence.
Qed.

Lemma resolve_same_configuration this ecm :
  same_configuration (fst (resolve this ecm)) this.
Proof. unfold resolve. destruct (N.eqb _ _); by repeat split. Qed.

Lemma PreUpdate_same_configuration this info ecm r :
  outcome_result (PreUpdate this info ecm) = Some r ->
  same_configuration (res_this r) this.
Proof.
  pose proof (resolve_same_configuration this ecm) as Hres.
  destruct (N.eqb_spec (joint_of_step this ecm) kNullEntity) as [Hnull | Hne].
  { rewrite PreUpdate_stops_early by by left. by intros [= <-]. }
  destruct (paused info) eqn:Hp.
  { rewrite PreUpdate_stops_early by by right. by intros [= <-]. }
  destruct (Component ecm (joint_of_step this ecm) JointVelocity) as [vel|] eqn:Hvel.
  - destruct (useForceCommands this) eqn:Hmode.
    + destruct vel as [|v0 vs].
      * rewrite (PreUpdate_force_empty _ _ _ Hmode Hne Hp Hvel). by intros [= <-].
      * destruct (PID_Update (velPid this) (v0 - jointVelCmd this)%Q (dt info))
          as [force pid] eqn:Hupd.
        rewrite (PreUpdate_force_reaches _ _ _ _ _ _ _ Hmode Hne Hp Hvel Hupd).
        intros Hr. by rewrite (write_cmd_this _ _ _ _ _ _ Hr).
    + rewrite (PreUpdate_velocity_reaches _ _ _ _ Hmode Hne Hp Hvel).
      intros Hr. by rewrite (write_cmd_this _ _ _ _ _ _ Hr).
  - rewrite (PreUpdate_velocity_absent _ _ _ Hne Hp Hvel). by intros [= <-].
Qed.

(** X5. Over any sequence of command messages and steps, the subscription,
    the joint name, the model and the mode are the ones the run started
    with: they are set by [Configure] and by nothing else. *)
Theorem configuration_fixed this evs :
  same_configuration (final this evs) this /\
  Forall (fun s : EntityComponentManager * Outcome =>
            forall r, outcome_result (snd s) = Some r ->
                      same_configuration (res_this r) this)
         (run this evs).
Proof.
  revert this. induction evs as [|[msg|info ecm] evs IH]; intros this; simpl.
  - split; [apply same_configuration_refl | constructor].
  - destruct (IH (OnCmdVel this msg)) as [Hfin Hrun].
    assert (Hmsg : same_configuration (OnCmdVel this msg) this) by by repeat split.
    split; [by apply (same_configuration_trans _ _ _ Hfin)|].
    eapply Forall_impl; [exact Hrun|]. intros s Hs r Hr.
    by apply (same_configuration_trans _ _ _ (Hs r Hr)).
  - pose proof (PreUpdate_same_configuration this info ecm) as Hstep.
    destruct (PreUpdate this info ecm) as [r|r|calls] eqn:Ho; simpl in *.
    + destruct (IH (res_this r)) as [Hfin Hrun].
      specialize (Hstep r eq_refl).
      split; [by apply (same_configuration_trans _ _ _ Hfin)|].
      constructor; [by intros r' [= <-]|].
      eapply Forall_impl; [exact Hrun|]. intros s Hs r' Hr'.
      by apply (same_configuration_trans _ _ _ (Hs r' Hr')).
    + split; [by apply Hstep|]. constructor; [intros r' Hr'; by apply Hstep | constructor].
    + split; [apply same_configuration_refl|]. constructor; [done | constructor].
Qed.


(** ** Velocity mode and the PID controller *)

Lemma write_cmd_Forall (Q : Call -> Prop) this ecm t v calls :
  (forall e t', Q (GetComponent e t')) ->
  (forall e t' data, Q (CreateComponentCall e t' data)) ->
  (forall e t' i x, Q (DataAssign e t' i x)) ->
  Forall Q calls ->
  Forall Q (outcome_calls (write_cmd this ecm t v calls)).
Proof.
  intros Hget Hcreate Hassign Hcalls.
  destruct (write_cmd_calls this ecm t v calls) as (c & -> & Hc).
  apply Forall_app. split; [done|].
  constructor; [apply Hget|]. constructor; [|constructor].
  destruct Hc as [-> | ->]; [apply Hcreate | apply Hassign].
Qed.

Lemma early_calls_Forall (Q : Call -> Prop) this info ecm :
  Q (Console ignwarn) ->
  (forall m name, Q (JointByName m name)) ->
  Forall Q (warn_rewind info ++ snd (resolve this ecm)).
Proof.
  intros Hwarn Hlook. unfold warn_rewind, resolve.
  destruct (dt info <? 0)%Z, (N.eqb _ _); simpl; repeat constructor; done.
Qed.

Lemma calls_to_velocity_Forall (Q : Call -> Prop) this info ecm :
  Q (Console ignwarn) ->
  (forall m name, Q (JointByName m name)) ->
  (forall e t', Q (GetComponent e t')) ->
  Forall Q (calls_to_velocity this info ecm).
Proof.
  intros Hwarn Hlook Hget. unfold calls_to_velocity.
  apply Forall_app. split; [by apply early_calls_Forall | repeat constructor; done].
Qed.

(** One velocity-mode step. *)
Lemma PreUpdate_velocity_mode_step this info ecm :
  useForceCommands this = false ->
  step_without_pid (velPid this) (ecm, PreUpdate this info ecm).
Proof.
  intros Hmode. unfold step_without_pid. simpl.
  destruct (resolve_fields this ecm) as (_ & Hpid & _).
  destruct (N.eqb_spec (joint_of_step this ecm) kNullEntity) as [Hnull | Hne].
  { rewrite PreUpdate_stops_early by by left. simpl.
    repeat split; [by apply early_calls_Forall | by intros r [= <-]]. }
  destruct (paused info) eqn:Hp.
  { rewrite PreUpdate_stops_early by by right. simpl.
    repeat split; [by apply early_calls_Forall | by intros r [= <-]]. }
  destruct (Component ecm (joint_of_step this ecm) JointVelocity) as [vel|] eqn:Hvel.
  - rewrite (PreUpdate_velocity_reaches _ _ _ _ Hmode Hne Hp Hvel).
    repeat split.
    + unfold write_cmd. by destruct (Component ecm _ JointVelocityCmd) as [[|f0 fs]|].
    + apply write_cmd_Forall; [done..|]. by apply calls_to_velocity_Forall.
    + intros r Hr. by rewrite (write_cmd_this _ _ _ _ _ _ Hr).
  - rewrite (PreUpdate_velocity_absent _ _ _ Hne Hp Hvel). simpl.
    repeat split; [|by intros r [= <-]].
    apply Forall_app. split; [by apply calls_to_velocity_Forall | repeat constructor].
Qed.

(** X6. Over any sequence of command messages and steps, an instance in
    velocity mode never reads the data of the measured velocity, never calls
    the PID controller and never throws [std::out_of_range]; its PID state
    stays the one it started with. *)
Theorem velocity_mode_never_uses_pid this evs :
  useForceCommands this = false ->
  Forall (step_without_pid (velPid this)) (run this evs) /\
  velPid (final this evs) = velPid this.
Proof.
  revert this. induction evs as [|[msg|info ecm] evs IH]; intros this Hmode; simpl.
  - split; [constructor | done].
  - apply (IH (OnCmdVel this msg)). done.
  - pose proof (PreUpdate_velocity_mode_step this info ecm Hmode) as Hstep.
    pose proof (PreUpdate_same_configuration this info ecm) as Hconf.
    destruct (PreUpdate this info ecm) as [r|r|calls] eqn:Ho.
    + destruct Hstep as (Hthrow & Hcalls & Hpid). simpl in Hpid, Hconf.
      destruct (Hconf r eq_refl) as (_ & _ & _ & Hm).
      destruct (IH (res_this r)) as [Hrun Hfin]; [congruence|].
      rewrite (Hpid r eq_refl) in Hrun, Hfin.
      split; [|done]. constructor; [|done]. by repeat split.
    + by destruct Hstep as [Hthrow _].
    + split; [|done]. constructor; [done | constructor].
Qed.

(** ** While the joint is not found *)

(** One step at which the lookup fails. *)
Lemma PreUpdate_lookup_fails this info ecm :
  jointEntity this = kNullEntity ->
  Model_JointByName ecm (model this) (jointName this) = kNullEntity ->
  PreUpdate this info ecm =
  Returned (mkResult (set_jointEntity this kNullEntity) ecm
              (warn_rewind info ++ [JointByName (model this) (jointName this)])).
Proof.
  intros Hnull Hlook.
  rewrite PreUpdate_stops_early;
    unfold joint_of_step, resolve; rewrite Hnull; simpl; rewrite Hlook; [done | by left].
Qed.

(** X7. From a state in which the joint is not identified, over any
    sequence of command messages and steps whose stores hold no joint of
    that name under the model: every step makes the lookup once, returns,
    leaves the store as it was given and the joint unidentified, keeps the
    PID state and creates or writes nothing, whether it is paused or not. *)
Theorem lookup_retried_every_step this evs :
  jointEntity this = kNullEntity ->
  (forall info ecm, In (Step info ecm) evs ->
                    Model_JointByName ecm (model this) (jointName this) = kNullEntity) ->
  Forall (step_retries this) (run this evs) /\
  length (run this evs) = length (filter (fun ev => is_step ev = true) evs) /\
  jointEntity (final this evs) = kNullEntity.
Proof.
  intros Hnull Hstore.
  assert (Hgen : forall this', jointEntity this' = kNullEntity ->
            same_configuration this' this -> velPid this' = velPid this ->
            Forall (step_retries this) (run this' evs) /\
            length (run this' evs) = length (filter (fun ev => is_step ev = true) evs) /\
            jointEntity (final this' evs) = kNullEntity).
  { induction evs as [|[msg|info ecm] evs IH]; intros this' Hn Hc Hp; simpl.
    - repeat split; [constructor | done].
    - apply IH; [|done | |done].
      + intros info ecm Hin. apply (Hstore info ecm). by right.
      + apply (same_configuration_trans _ this'); [by repeat split | done].
    - assert (Hlook : Model_JointByName ecm (model this') (jointName this') = kNullEntity).
      { destruct Hc as (_ & -> & -> & _). apply (Hstore info ecm). by left. }
      rewrite (PreUpdate_lookup_fails _ _ _ Hn Hlook).
      destruct (IH (fun info' ecm' Hin => Hstore info' ecm' (or_intror Hin))
                  (set_jointEntity this' kNullEntity)) as (Hrun & Hlen & Hfin);
        [done | by destruct Hc as (? & ? & ? & ?) | done |].
      simpl. repeat split; [|by rewrite Hlen | done].
      constructor; [|done].
      eexists. split; [reflexivity|]. simpl.
      repeat split; try (by destruct Hc as (? & ? & ? & ?)).
      + unfold warn_rewind. by destruct (dt info <? 0)%Z.
      + unfold warn_rewind. destruct (dt info <? 0)%Z; repeat constructor. }
  apply Hgen; [done | apply same_configuration_refl | done].
Qed.

(** X8. A paused step of an instance whose joint is not identified still
    makes the lookup and keeps the joint it finds; it creates and writes
    nothing, and the store and the PID state are as they were. *)
Theorem PreUpdate_paused_resolves this info ecm :
  paused info = true ->
  jointEntity this = kNullEntity ->
  exists r, PreUpdate this info ecm = Returned r /\
            jointEntity (res_this r) =
              Model_JointByName ecm (model this) (jointName this) /\
            In (JointByName (model this) (jointName this)) (res_calls r) /\
            res_ecm r = ecm /\
            velPid (res_this r) = velPid this /\
            Forall (fun c => mutates_store c = false) (res_calls r).
Proof.
  intros Hp Hnull. rewrite PreUpdate_stops_early by by right.
  eexists. split; [reflexivity|]. unfold resolve. rewrite Hnull. simpl.
  repeat split.
  - apply in_app_iff. right. by left.
  - unfold warn_rewind. destruct (dt info <? 0)%Z; repeat constructor.
Qed.


(** ** Command messages *)

Lemma deliver_fields this msgs :
  same_configuration (deliver this msgs) this /\
  jointEntity (deliver this msgs) = jointEntity this /\
  velPid (deliver this msgs) = velPid this.
Proof.
  unfold deliver. revert this. induction msgs as [|m msgs IH]; intros this; simpl.
  - by repeat split.
  - destruct (IH (OnCmdVel this m)) as ((? & ? & ? & ?) & ? & ?).
    by repeat split.
Qed.

Lemma deliver_last this msgs msg :
  deliver this (msgs ++ [msg]) = OnCmdVel this msg.
Proof.
  unfold deliver. rewrite foldl_app. simpl.
  destruct (deliver_fields this msgs) as ((Hn & Hname & Hm & Hmode) & He & Hp).
  unfold deliver in *. unfold OnCmdVel at 1 3, set_jointVelCmd.
  by rewrite Hn, Hname, Hm, Hmode, He, Hp.
Qed.

(** X9. Of the command messages that arrive between two steps only the
    last one counts: it is the command held afterwards, and the next step
    does what it would do had only that message arrived. *)
Theorem latest_command_wins this msgs msg info ecm :
  jointVelCmd (deliver this (msgs ++ [msg])) = msg /\
  PreUpdate (deliver this (msgs ++ [msg])) info ecm =
  PreUpdate (OnCmdVel this msg) info ecm.
Proof. by rewrite deliver_last. Qed.

(** ** Two steps in a row *)

Lemma SetData_SetData ecm e t data data' :
  SetData (SetData ecm e t data) e t data' = SetData ecm e t data'.
Proof. unfold SetData, set_components. simpl. by rewrite insert_insert_eq. Qed.

Lemma joint_of_step_resolved this ecm :
  jointEntity this <> kNullEntity -> joint_of_step this ecm = jointEntity this.
Proof. intros Hne. unfold joint_of_step. by rewrite resolve_resolved. Qed.

(** X10. In velocity mode the command component is created on first use
    and overwritten thereafter: after a step that requested its creation with
    the store accepting, a later step on the store it left, with the command
    replaced by a message [msg], makes no lookup, assigns element 0 and
    leaves the component holding [[msg]]. *)
Theorem velocity_command_created_then_overwritten this info info' ecm vel msg r :
  useForceCommands this = false ->
  joint_of_step this ecm <> kNullEntity ->
  paused info = false ->
  paused info' = false ->
  Component ecm (joint_of_step this ecm) JointVelocity = Some vel ->
  Component ecm (joint_of_step this ecm) JointVelocityCmd = None ->
  accepts ecm (joint_of_step this ecm) JointVelocityCmd = true ->
  PreUpdate this info ecm = Returned r ->
  exists r', PreUpdate (OnCmdVel (res_this r) msg) info' (res_ecm r) = Returned r' /\
    last (res_calls r') =
      Some (DataAssign (joint_of_step this ecm) JointVelocityCmd 0 msg) /\
    Forall (fun c => is_lookup c = false) (res_calls r') /\
    Component (res_ecm r') (joint_of_step this ecm) JointVelocityCmd = Some [msg].
Proof.
  intros Hmode Hne Hp Hp' Hvel Hnone Hacc.
  rewrite (PreUpdate_velocity_reaches _ _ _ _ Hmode Hne Hp Hvel).
  rewrite write_cmd_absent by exact Hnone.
  intros [= <-]. cbn [res_this res_ecm].
  set (j := joint_of_step this ecm) in *.
  change (jointEntity (fst (resolve this ecm))) with j.
  unfold CreateComponent. rewrite Hacc.
  set (this2 := OnCmdVel (fst (resolve this ecm)) msg).
  set (ecm1 := SetData ecm j JointVelocityCmd [jointVelCmd this]).
  assert (Hj2 : jointEntity this2 = j) by done.
  assert (Hj : joint_of_step this2 ecm1 = j).
  { rewrite joint_of_step_resolved; [done | by rewrite Hj2]. }
  assert (Hmode2 : useForceCommands this2 = false).
  { unfold this2. simpl. by destruct (resolve_fields this ecm) as (_ & _ & ->). }
  assert (Hvel1 : Component ecm1 (joint_of_step this2 ecm1) JointVelocity = Some vel).
  { rewrite Hj. unfold ecm1. by rewrite Component_SetData_other_type. }
  rewrite (PreUpdate_velocity_reaches this2 info' ecm1 vel Hmode2);
    [|by rewrite Hj | done | done].
  assert (Hres : fst (resolve this2 ecm1) = this2).
  { rewrite resolve_resolved; [done | by rewrite Hj2]. }
  rewrite Hres.
  rewrite (write_cmd_present this2 ecm1 JointVelocityCmd _ _ (jointVelCmd this) []);
    [|rewrite Hj2; apply Component_SetData_same].
  rewrite Hj2. eexists. split; [reflexivity|]. cbn [res_calls res_ecm].
  split; [by rewrite last_app|]. split; [|apply Component_SetData_same].
  apply Forall_app. split; [|repeat constructor].
  unfold calls_to_velocity. rewrite resolve_resolved by by rewrite Hj2.
  apply Forall_app. split; [|repeat constructor].
  rewrite app_nil_r. apply warn_rewind_no_lookup.
Qed.

(** X11. A velocity-mode step that reaches the command and returns is
    idempotent: the same step, taken again on the private data and the store
    it left, returns and leaves both as they are. *)
Theorem velocity_step_idempotent this info ecm vel r :
  useForceCommands this = false ->
  joint_of_step this ecm <> kNullEntity ->
  paused info = false ->
  Component ecm (joint_of_step this ecm) JointVelocity = Some vel ->
  PreUpdate this info ecm = Returned r ->
  exists r', PreUpdate (res_this r) info (res_ecm r) = Returned r' /\
             res_this r' = res_this r /\
             res_ecm r' = res_ecm r.
Proof.
  intros Hmode Hne Hp Hvel.
  rewrite (PreUpdate_velocity_reaches _ _ _ _ Hmode Hne Hp Hvel).
  set (this1 := fst (resolve this ecm)).
  set (j := joint_of_step this ecm) in *.
  assert (Hj1 : jointEntity this1 = j) by done.
  assert (Hmode1 : useForceCommands this1 = false).
  { unfold this1. by destruct (resolve_fields this ecm) as (_ & _ & ->). }
  assert (Hcmd1 : jointVelCmd this1 = jointVelCmd this).
  { unfold this1. by destruct (resolve_fields this ecm) as (-> & _ & _). }
  assert (Hres : forall ecm', fst (resolve this1 ecm') = this1).
  { intros ecm'. rewrite resolve_resolved; [done | by rewrite Hj1]. }
  assert (Hjs : forall ecm', joint_of_step this1 ecm' = j).
  { intros ecm'. rewrite joint_of_step_resolved; [done | by rewrite Hj1]. }
  assert (Hagain : forall ecm',
            Component ecm' j JointVelocity = Some vel ->
            PreUpdate this1 info ecm' =
            write_cmd this1 ecm' JointVelocityCmd (jointVelCmd this)
              (calls_to_velocity this1 info ecm')).
  { intros ecm' Hvel'.
    rewrite (PreUpdate_velocity_reaches this1 info ecm' vel Hmode1);
      [by rewrite Hres, Hcmd1 | by rewrite Hjs | done | by rewrite Hjs]. }
  unfold write_cmd at 1. rewrite Hj1.
  destruct (Component ecm j JointVelocityCmd) as [[|f0 fs]|] eqn:Hc; [discriminate | |].
  - intros [= <-]. cbn [res_this res_ecm].
    rewrite Hagain by by rewrite Component_SetData_other_type.
    rewrite (write_cmd_present _ _ _ _ _ (jointVelCmd this) fs)
      by (rewrite Hj1; apply Component_SetData_same).
    rewrite Hj1, SetData_SetData. eauto.
  - intros [= <-]. cbn [res_this res_ecm]. unfold CreateComponent.
    destruct (accepts ecm j JointVelocityCmd) eqn:Hacc.
    + rewrite Hagain by by rewrite Component_SetData_other_type.
      rewrite (write_cmd_present _ _ _ _ _ (jointVelCmd this) [])
        by (rewrite Hj1; apply Component_SetData_same).
      rewrite Hj1, SetData_SetData. eauto.
    + rewrite Hagain by done.
      rewrite write_cmd_absent by by rewrite Hj1.
      rewrite Hj1. unfold CreateComponent. rewrite Hacc. eauto.
Qed.


(** ** What [Configure] sets up *)

Lemma Configure_not_ok entity sdf ecm :
  Configure_ok entity sdf ecm = false -> Configure_fails entity sdf ecm.
Proof.
  unfold Configure_ok, Configure_fails. intros Hok.
  apply andb_false_iff in Hok as [Hv | Hn]; [by left | right].
  apply negb_false_iff in Hn. by apply String.eqb_eq.
Qed.

(** The private data and the calls of a [Configure] that gets past its
    checks, up to the choice of the mode. *)
Lemma Configure_ok_fields entity sdf ecm :
  Configure_ok entity sdf ecm = true ->
  jointEntity (fst (Configure JointController_new entity sdf ecm)) = kNullEntity /\
  model (fst (Configure JointController_new entity sdf ecm)) = entity /\
  jointName (fst (Configure JointController_new entity sdf ecm)) =
    default EmptyString (sdf_joint_name sdf) /\
  jointVelCmd (fst (Configure JointController_new entity sdf ecm)) =
    default 0%Q (sdf_initial_velocity sdf) /\
  useForceCommands (fst (Configure JointController_new entity sdf ecm)) =
    bool_decide (sdf_use_force_commands sdf = Some true) /\
  (useForceCommands (fst (Configure JointController_new entity sdf ecm)) = false ->
   velPid (fst (Configure JointController_new entity sdf ecm)) = PID_new) /\
  exists topic,
    node (fst (Configure JointController_new entity sdf ecm)) = [topic] /\
    filter (fun c => is_subscribe c = true)
           (snd (Configure JointController_new entity sdf ecm)) = [Subscribe topic] /\
    topic = default
              (String.append "/model/"
                 (String.append (Model_Name ecm entity)
                    (String.append "/joint/"
                       (String.append (default EmptyString (sdf_joint_name sdf))
                          "/cmd_vel"))))
              (sdf_topic sdf).
Proof.
  unfold Configure_ok. intros Hok. apply andb_true_iff in Hok as [Hv Hn].
  apply negb_true_iff in Hn. unfold Configure. simpl. rewrite Hv. simpl. rewrite Hn.
  destruct (sdf_initial_velocity sdf) as [v|], (sdf_use_force_commands sdf) as [[]|],
    (sdf_topic sdf) as [tp|]; simpl;
    (repeat split; try done; eexists; repeat split; done).
Qed.

(** X12. [Configure] on a freshly constructed instance either fails, and
    then sets up nothing (no subscription, velocity mode, command 0, PID
    untouched: [initial_velocity], [use_force_commands] and [topic] are not
    even read), or gets past its checks, and then subscribes to exactly one
    topic (the [topic] element, or the path built from the model name and the
    joint name), takes the command from [initial_velocity], and is in force
    mode exactly when [use_force_commands] is present and true, which is also
    exactly when it initialises the PID controller.  It never identifies the
    joint itself. *)
Theorem Configure_all_or_nothing entity sdf ecm :
  jointEntity (fst (Configure JointController_new entity sdf ecm)) = kNullEntity /\
  (Configure_ok entity sdf ecm = false ->
   Configure JointController_new entity sdf ecm =
     (set_model JointController_new entity, [Console ignerr])) /\
  (Configure_ok entity sdf ecm = true ->
   jointVelCmd (fst (Configure JointController_new entity sdf ecm)) =
     default 0%Q (sdf_initial_velocity sdf) /\
   useForceCommands (fst (Configure JointController_new entity sdf ecm)) =
     bool_decide (sdf_use_force_commands sdf = Some true) /\
   (In PidInit (snd (Configure JointController_new entity sdf ecm)) <->
    sdf_use_force_commands sdf = Some true) /\
   exists topic,
     node (fst (Configure JointController_new entity sdf ecm)) = [topic] /\
     filter (fun c => is_subscribe c = true)
            (snd (Configure JointController_new entity sdf ecm)) = [Subscribe topic] /\
     topic = default
               (String.append "/model/"
                  (String.append (Model_Name ecm entity)
                     (String.append "/joint/"
                        (String.append (default EmptyString (sdf_joint_name sdf))
                           "/cmd_vel"))))
               (sdf_topic sdf)).
Proof.
  split; [|split].
  - destruct (Configure_ok entity sdf ecm) eqn:Hok.
    + by apply Configure_ok_fields.
    + by rewrite (Configure_failed_state _ _ _ (Configure_not_ok _ _ _ Hok)).
  - intros Hok. apply Configure_failed_state. by apply Configure_not_ok.
  - intros Hok.
    destruct (Configure_ok_fields _ _ _ Hok) as (_ & _ & _ & Hcmd & Hmode & _ & Htopic).
    split; [done|]. split; [done|]. split; [|done].
    unfold Configure_ok in Hok. apply andb_true_iff in Hok as [Hv Hn].
    apply negb_true_iff in Hn. unfold Configure. simpl. rewrite Hv. simpl. rewrite Hn.
    destruct (sdf_initial_velocity sdf) as [v|], (sdf_use_force_commands sdf) as [[]|];
      simpl; (split; [intros Hin | intros Heq]); try done; auto;
      repeat (destruct Hin as [Hin | Hin]; try discriminate Hin); by destruct Hin.
Qed.

(** ** The first step *)

Lemma PreUpdate_calls_prefix this info ecm :
  (warn_rewind info ++ snd (resolve this ecm)) `prefix_of`
  outcome_calls (PreUpdate this info ecm).
Proof.
  destruct (N.eqb_spec (joint_of_step this ecm) kNullEntity) as [Hnull | Hne].
  { by rewrite PreUpdate_stops_early by by left. }
  destruct (paused info) eqn:Hp.
  { by rewrite PreUpdate_stops_early by by right. }
  destruct (Component ecm (joint_of_step this ecm) JointVelocity) as [vel|] eqn:Hvel.
  - destruct (useForceCommands this) eqn:Hmode.
    + destruct vel as [|v0 vs].
      * rewrite (PreUpdate_force_empty _ _ _ Hmode Hne Hp Hvel). simpl.
        unfold calls_to_velocity. repeat (first [reflexivity | apply prefix_app_r]).
      * destruct (PID_Update (velPid this) (v0 - jointVelCmd this)%Q (dt info))
          as [force pid] eqn:Hupd.
        rewrite (PreUpdate_force_reaches _ _ _ _ _ _ _ Hmode Hne Hp Hvel Hupd).
        match goal with |- context [write_cmd ?a ?b ?c ?d ?l] =>
          destruct (write_cmd_calls a b c d l) as (c0 & -> & _) end.
        unfold calls_to_velocity. repeat (first [reflexivity | apply prefix_app_r]).
    + rewrite (PreUpdate_velocity_reaches _ _ _ _ Hmode Hne Hp Hvel).
      match goal with |- context [write_cmd ?a ?b ?c ?d ?l] =>
        destruct (write_cmd_calls a b c d l) as (c0 & -> & _) end.
      unfold calls_to_velocity. repeat (first [reflexivity | apply prefix_app_r]).
  - rewrite (PreUpdate_velocity_absent _ _ _ Hne Hp Hvel). simpl.
    unfold calls_to_velocity. repeat (first [reflexivity | apply prefix_app_r]).
Qed.

Lemma PreUpdate_result_jointEntity this info ecm r :
  outcome_result (PreUpdate this info ecm) = Some r ->
  jointEntity (res_this r) = joint_of_step this ecm.
Proof.
  destruct (N.eqb_spec (joint_of_step this ecm) kNullEntity) as [Hnull | Hne].
  { rewrite PreUpdate_stops_early by by left. by intros [= <-]. }
  destruct (paused info) eqn:Hp.
  { rewrite PreUpdate_stops_early by by right. by intros [= <-]. }
  destruct (Component ecm (joint_of_step this ecm) JointVelocity) as [vel|] eqn:Hvel.
  - destruct (useForceCommands this) eqn:Hmode.
    + destruct vel as [|v0 vs].
      * rewrite (PreUpdate_force_empty _ _ _ Hmode Hne Hp Hvel). by intros [= <-].
      * destruct (PID_Update (velPid this) (v0 - jointVelCmd this)%Q (dt info))
          as [force pid] eqn:Hupd.
        rewrite (PreUpdate_force_reaches _ _ _ _ _ _ _ Hmode Hne Hp Hvel Hupd).
        intros Hr. by rewrite (write_cmd_this _ _ _ _ _ _ Hr).
    + rewrite (PreUpdate_velocity_reaches _ _ _ _ Hmode Hne Hp Hvel).
      intros Hr. by rewrite (write_cmd_this _ _ _ _ _ _ Hr).
  - rewrite (PreUpdate_velocity_absent _ _ _ Hne Hp Hvel). by intros [= <-].
Qed.

(** X13. The first step after a [Configure] that got past its checks looks
    the joint up under the entity [Configure] was given and the configured
    [joint_name], and the joint entity it keeps is the result of that lookup
    in the store of the step, whatever else the step does. *)
Theorem first_step_looks_up_configured_joint entity sdf ecm0 info ecm :
  Configure_ok entity sdf ecm0 = true ->
  In (JointByName entity (default EmptyString (sdf_joint_name sdf)))
     (outcome_calls
        (PreUpdate (fst (Configure JointController_new entity sdf ecm0)) info ecm)) /\
  forall r,
    outcome_result
      (PreUpdate (fst (Configure JointController_new entity sdf ecm0)) info ecm) = Some r ->
    jointEntity (res_this r) =
      Model_JointByName ecm entity (default EmptyString (sdf_joint_name sdf)).
Proof.
  intros Hok.
  destruct (Configure_ok_fields _ _ _ Hok) as (He & Hm & Hn & _).
  set (this := fst (Configure JointController_new entity sdf ecm0)) in *.
  assert (Hres : resolve this ecm =
            (set_jointEntity this
               (Model_JointByName ecm entity (default EmptyString (sdf_joint_name sdf))),
             [JointByName entity (default EmptyString (sdf_joint_name sdf))])).
  { unfold resolve. by rewrite He, Hm, Hn. }
  split.
  - destruct (PreUpdate_calls_prefix this info ecm) as (rest & ->).
    rewrite Hres. simpl. rewrite !in_app_iff. left. right. by left.
  - intros r Hr. rewrite (PreUpdate_result_jointEntity _ _ _ _ Hr).
    unfold joint_of_step. by rewrite Hres.
Qed.


(** ** The step after the creation of the measured velocity *)

(** X14. After a step that requested the creation of the measured-velocity
    component with the store accepting, the next step on the store it left:
    in velocity mode ends with the creation or the assignment of the velocity
    command; in force mode ends the same way for the force command when the
    default data of the created component has an element 0, and throws
    [std::out_of_range] when the default data is empty (so that force mode
    relies on another system filling the component in between). *)
Theorem step_after_velocity_creation this info info' ecm r :
  joint_of_step this ecm <> kNullEntity ->
  paused info = false ->
  paused info' = false ->
  Component ecm (joint_of_step this ecm) JointVelocity = None ->
  accepts ecm (joint_of_step this ecm) JointVelocity = true ->
  PreUpdate this info ecm = Returned r ->
  Component (res_ecm r) (joint_of_step this ecm) JointVelocity = Some JointVelocity_new /\
  (useForceCommands this = false \/ JointVelocity_new <> [] ->
   exists c, last (outcome_calls (PreUpdate (res_this r) info' (res_ecm r))) = Some c /\
             mutates (used_cmd this) c = true) /\
  (useForceCommands this = true -> JointVelocity_new = [] ->
   is_throw (PreUpdate (res_this r) info' (res_ecm r)) = true).
Proof.
  intros Hne Hp Hp' Hnone Hacc.
  rewrite (PreUpdate_velocity_absent _ _ _ Hne Hp Hnone).
  intros [= <-]. cbn [res_this res_ecm].
  set (j := joint_of_step this ecm) in *.
  set (this1 := fst (resolve this ecm)).
  set (ecm1 := CreateComponent ecm j JointVelocity JointVelocity_new).
  assert (Hj1 : jointEntity this1 = j) by done.
  assert (Hjs : joint_of_step this1 ecm1 = j).
  { rewrite joint_of_step_resolved; [done | by rewrite Hj1]. }
  assert (Hmode1 : useForceCommands this1 = useForceCommands this).
  { unfold this1. by destruct (resolve_fields this ecm) as (_ & _ & ->). }
  assert (Hvel1 : Component ecm1 j JointVelocity = Some JointVelocity_new).
  { by apply Component_CreateComponent_accepted. }
  split; [done|]. split.
  - intros Hcase. unfold used_cmd.
    destruct (useForceCommands this) eqn:Hmode.
    + destruct Hcase as [? | Hnonempty]; [done|].
      assert (Hex : exists v0 vs, JointVelocity_new = v0 :: vs).
      { clear -Hnonempty. destruct JointVelocity_new; [done | eauto]. }
      destruct Hex as (v0 & vs & Hdata). rewrite Hdata in Hvel1.
      destruct (PID_Update (velPid this1) (v0 - jointVelCmd this1)%Q (dt info'))
        as [force pid] eqn:Hupd.
      rewrite (PreUpdate_force_reaches this1 info' ecm1 v0 vs force pid);
        [|congruence | by rewrite Hjs | done | by rewrite Hjs | done].
      match goal with |- context [write_cmd ?a ?b ?c ?d ?l] =>
        destruct (write_cmd_calls a b c d l) as (c0 & -> & Hc0) end.
      exists c0. split; [by rewrite last_app | by destruct Hc0 as [-> | ->]].
    + rewrite (PreUpdate_velocity_reaches this1 info' ecm1 JointVelocity_new);
        [|congruence | by rewrite Hjs | done | by rewrite Hjs].
      match goal with |- context [write_cmd ?a ?b ?c ?d ?l] =>
        destruct (write_cmd_calls a b c d l) as (c0 & -> & Hc0) end.
      exists c0. split; [by rewrite last_app | by destruct Hc0 as [-> | ->]].
  - intros Hmode Hempty.
    rewrite (PreUpdate_force_empty this1 info' ecm1);
      [done | congruence | by rewrite Hjs | done | by rewrite Hjs, Hvel1, Hempty].
Qed.

End JointControllerProperties.

(** ** Negative durations *)

Lemma write_cmd_with_warning {PID : Type} accepts
    (this : JointControllerPrivate (PID := PID)) ecm t v calls :
  write_cmd accepts this ecm t v (Console ignwarn :: calls) =
  with_warning (write_cmd accepts this ecm t v calls).
Proof.
  unfold write_cmd.
  by destruct (Component ecm (jointEntity this) t) as [[|f0 fs]|].
Qed.

(** C9. A step with a negative duration [d] does what the same step with
    any non-negative duration [d'] does, except that the warning is logged
    first and that the PID controller, where the step reaches it, is handed
    the negative [d] itself: same early returns, same lookups, same reads and
    writes, nothing reset. *)
Theorem PreUpdate_negative_dt {PID : Type} (P : PIDClass PID) accepts JointVelocity_new
    (this : JointControllerPrivate) (ecm : EntityComponentManager)
    (d d' : duration) (pause : bool) :
  (d < 0)%Z ->
  (0 <= d')%Z ->
  head (outcome_calls
          (PreUpdate (H := P) accepts JointVelocity_new this (mkInfo d pause) ecm)) =
    Some (Console ignwarn) /\
  PreUpdate (H := P) accepts JointVelocity_new this (mkInfo d pause) ecm =
  with_warning
    (PreUpdate (H := PID_at_dt P d) accepts JointVelocity_new this (mkInfo d' pause) ecm).
Proof.
  intros Hd Hd'.
  assert (Heq : PreUpdate (H := P) accepts JointVelocity_new this (mkInfo d pause) ecm =
    with_warning
      (PreUpdate (H := PID_at_dt P d) accepts JointVelocity_new this
         (mkInfo d' pause) ecm));
    [|split; [rewrite Heq | exact Heq];
      by destruct (PreUpdate (H := PID_at_dt P d) accepts JointVelocity_new this
                     (mkInfo d' pause) ecm)].
  unfold PreUpdate, warn_rewind. simpl.
  destruct (Z.ltb_spec d 0); [|lia].
  destruct (Z.ltb_spec d' 0); [lia|].
  destruct (resolve this ecm) as [this1 look]. simpl.
  destruct (N.eqb (jointEntity this1) kNullEntity); [done|].
  destruct pause; [done|].
  destruct (Component ecm (jointEntity this1) JointVelocity) as [vel|]; [|done].
  destruct (useForceCommands this1).
  - destruct vel as [|v0 vs]; [done|].
    destruct (PID_Update (velPid this1) (v0 - jointVelCmd this1)%Q d) as [force pid].
    apply write_cmd_with_warning.
  - apply write_cmd_with_warning.
Qed.

(** ** The integral accumulator *)

Section PIDProperties.

Import PIDSpec.
Local Open Scope Q_scope.

Implicit Types (pid : PID) (calls : list (double * double)).

Lemma Qltb_true x y : Qltb x y = true <-> x < y.
Proof.
  unfold Qltb. rewrite negb_true_iff, <- not_true_iff_false, Qle_bool_iff.
  split; [apply Qnot_le_lt | apply Qlt_not_le].
Qed.

Lemma Qltb_false x y : Qltb x y = false <-> y <= x.
Proof. unfold Qltb. by rewrite negb_false_iff, Qle_bool_iff. Qed.

Lemma clamp_cases v lo hi :
  (v < lo /\ clamp v lo hi = lo) \/
  (lo <= v /\ hi < v /\ clamp v lo hi = hi) \/
  (lo <= v /\ v <= hi /\ clamp v lo hi = v).
Proof.
  unfold clamp.
  destruct (Qltb v lo) eqn:H1; [left; split; [by apply Qltb_true | done]|].
  apply Qltb_false in H1. right.
  destruct (Qltb hi v) eqn:H2; [left; repeat split; [done | by apply Qltb_true]|].
  apply Qltb_false in H2. right. done.
Qed.

Lemma clamp_bounds v lo hi : lo <= hi -> lo <= clamp v lo hi /\ clamp v lo hi <= hi.
Proof.
  intros Hle.
  destruct (clamp_cases v lo hi) as [[H1 ->] | [(H1 & H2 & ->) | (H1 & H2 & ->)]];
    split; lra.
Qed.

(** Clamping never lowers a value that is below the upper bound, and maps
    every value from the upper bound on to the upper bound. *)
Lemma clamp_progress v lo hi :
  lo <= hi -> (v <= hi -> v <= clamp v lo hi) /\ (hi <= v -> clamp v lo hi == hi).
Proof.
  intros Hle.
  destruct (clamp_cases v lo hi) as [[H1 ->] | [(H1 & H2 & ->) | (H1 & H2 & ->)]];
    split; intros; lra.
Qed.

Lemma Update_integral pid error dt :
  integral (snd (Update pid error dt)) =
  if Qltb 0 dt then clamp (integral pid + error * dt) (iMin pid) (iMax pid)
  else integral pid.
Proof. done. Qed.

Lemma updates_bounds pid calls :
  iMin (updates pid calls) = iMin pid /\
  iMax (updates pid calls) = iMax pid /\
  i (updates pid calls) = i pid.
Proof.
  revert pid. induction calls as [|[error dt] calls IH]; intros pid; [done|].
  change (updates pid ((error, dt) :: calls))
    with (updates (snd (Update pid error dt)) calls).
  by destruct (IH (snd (Update pid error dt))) as (-> & -> & ->).
Qed.

Lemma updates_app pid calls1 calls2 :
  updates pid (calls1 ++ calls2) = updates (updates pid calls1) calls2.
Proof.
  revert pid. induction calls1 as [|[error dt] calls1 IH]; intros pid; [done|].
  simpl. apply IH.
Qed.

Lemma updates_replicate_S pid n error dt :
  updates pid (replicate (S n) (error, dt)) =
  snd (Update (updates pid (replicate n (error, dt))) error dt).
Proof. by rewrite replicate_S_end, updates_app. Qed.

(** An update with a positive duration leaves the accumulator within the
    clamp. *)
Lemma Update_clamped pid error dt :
  iMin pid <= iMax pid -> 0 < dt ->
  iMin pid <= integral (snd (Update pid error dt)) /\
  integral (snd (Update pid error dt)) <= iMax pid.
Proof.
  intros Hle Hdt. rewrite Update_integral.
  apply Qltb_true in Hdt. rewrite Hdt. by apply clamp_bounds.
Qed.

(** Every update keeps an accumulator that is within the clamp within it. *)
Lemma Update_invariant pid error dt :
  iMin pid <= iMax pid ->
  iMin pid <= integral pid /\ integral pid <= iMax pid ->
  iMin pid <= integral (snd (Update pid error dt)) /\
  integral (snd (Update pid error dt)) <= iMax pid.
Proof.
  intros Hle Hin. rewrite Update_integral.
  destruct (Qltb 0 dt); [by apply clamp_bounds | done].
Qed.

Lemma updates_invariant pid calls :
  iMin pid <= iMax pid ->
  iMin pid <= integral pid /\ integral pid <= iMax pid ->
  iMin pid <= integral (updates pid calls) /\
  integral (updates pid calls) <= iMax pid.
Proof.
  revert pid. induction calls as [|[error dt] calls IH]; intros pid Hle Hin; [done|].
  change (updates pid ((error, dt) :: calls))
    with (updates (snd (Update pid error dt)) calls).
  specialize (IH (snd (Update pid error dt))).
  change (iMin (snd (Update pid error dt))) with (iMin pid) in IH.
  change (iMax (snd (Update pid error dt))) with (iMax pid) in IH.
  apply IH; [done|]. by apply Update_invariant.
Qed.

(** Under a constant positive error and duration the accumulator has
    reached [iMax] or has grown by [error * dt] with every update. *)
Lemma windup_progress pid error dt n :
  iMin pid <= iMax pid -> 0 < error -> 0 < dt ->
  iMax pid <= integral (updates pid (replicate n (error, dt))) \/
  integral pid + inject_Z (Z.of_nat n) * (error * dt) <=
    integral (updates pid (replicate n (error, dt))).
Proof.
  intros Hle He Hdt.
  assert (Hc : 0 < error * dt) by by apply Qmult_lt_0_compat.
  induction n as [|n IH].
  - right. change (integral pid + 0 * (error * dt) <= integral pid). lra.
  - rewrite updates_replicate_S, Update_integral.
    apply Qltb_true in Hdt. rewrite Hdt.
    destruct (updates_bounds pid (replicate n (error, dt))) as (-> & -> & _).
    set (a := integral (updates pid (replicate n (error, dt)))) in *.
    destruct (clamp_progress (a + error * dt) (iMin pid) (iMax pid) Hle) as [Hup Htop].
    assert (Hn : inject_Z (Z.of_nat (S n)) * (error * dt) ==
                 inject_Z (Z.of_nat n) * (error * dt) + error * dt).
    { rewrite Nat2Z.inj_succ. unfold Z.succ. rewrite inject_Z_plus. ring. }
    rewrite Hn. set (x := inject_Z (Z.of_nat n) * (error * dt)) in *.
    destruct (Qlt_le_dec (a + error * dt) (iMax pid)) as [Hlt | Hge].
    + right. destruct IH as [IH | IH]; [lra|].
      assert (a + error * dt <= clamp (a + error * dt) (iMin pid) (iMax pid))
        by (apply Hup; lra).
      lra.
    + left. rewrite (Htop Hge). lra.
Qed.

Lemma enough_updates (a c top : Q) :
  0 < c -> exists N : nat, (1 <= N)%nat /\
  forall n, (N <= n)%nat -> top <= a + inject_Z (Z.of_nat n) * c.
Proof.
  intros Hc. destruct (Qarchimedean ((top - a) / c)) as [k Hk].
  exists (Pos.to_nat k). split; [lia|]. intros n Hn.
  assert (Hkn : inject_Z (Z.pos k) <= inject_Z (Z.of_nat n)).
  { rewrite <- Zle_Qle. lia. }
  assert (Hdiv : top - a < inject_Z (Z.pos k) * c).
  { assert (Heq : top - a == (top - a) / c * c) by (field; lra).
    rewrite Heq. apply Qmult_lt_r; [done|]. exact Hk. }
  assert (Hmul : inject_Z (Z.pos k) * c <= inject_Z (Z.of_nat n) * c)
    by (apply Qmult_le_r; done).
  lra.
Qed.

(** C7 (amended). For a controller with [iMin <= iMax]: the accumulator
    lies within [[iMin, iMax]] after every update with a positive duration;
    an accumulator that is within the clamp (as the initial 0 is when
    [iMin <= 0 <= iMax], the defaults) stays within it over every sequence of
    updates; and under a constant positive error, a constant positive
    duration and a positive integral gain, the integral contribution
    [i * integral] to the output never exceeds [i * iMax] and equals it from
    some update on. *)
Theorem integral_within_clamp pid :
  iMin pid <= iMax pid ->
  (forall error dt, 0 < dt ->
     iMin pid <= integral (snd (Update pid error dt)) /\
     integral (snd (Update pid error dt)) <= iMax pid) /\
  (iMin pid <= integral pid /\ integral pid <= iMax pid ->
   forall calls,
     iMin pid <= integral (updates pid calls) /\
     integral (updates pid calls) <= iMax pid) /\
  (forall error dt, 0 < error -> 0 < dt -> 0 < i pid ->
     (forall n, (1 <= n)%nat ->
        i pid * integral (updates pid (replicate n (error, dt))) <= i pid * iMax pid) /\
     (exists N, forall n, (N <= n)%nat ->
        i pid * integral (updates pid (replicate n (error, dt))) == i pid * iMax pid)).
Proof.
  intros Hle. split; [|split].
  - intros error dt Hdt. by apply Update_clamped.
  - intros Hin calls. by apply updates_invariant.
  - intros error dt He Hdt Hi.
    assert (Hupper : forall n, (1 <= n)%nat ->
              integral (updates pid (replicate n (error, dt))) <= iMax pid).
    { intros [|n] Hn; [lia|]. rewrite updates_replicate_S.
      destruct (updates_bounds pid (replicate n (error, dt))) as (Hmin & Hmax & _).
      rewrite <- Hmax. apply Update_clamped; [by rewrite Hmin, Hmax | done]. }
    split.
    + intros n Hn. apply Qmult_le_l; [done|]. by apply Hupper.
    + destruct (enough_updates (integral pid) (error * dt) (iMax pid)) as (N & HN & Hreach).
      { by apply Qmult_lt_0_compat. }
      exists N. intros n Hn.
      assert (Hlow : iMax pid <= integral (updates pid (replicate n (error, dt)))).
      { destruct (windup_progress pid error dt n Hle He Hdt) as [Htop | Hgrow]; [done|].
        specialize (Hreach n Hn). lra. }
      assert (Hup : integral (updates pid (replicate n (error, dt))) <= iMax pid)
        by (apply Hupper; lia).
      assert (Heq : integral (updates pid (replicate n (error, dt))) == iMax pid)
        by lra.
      by rewrite Heq.
Qed.


(** The two example scenarios of the design document. *)
Example Update_saturates :
  fst (Update (Init 2 0 0 1 (-1) 10 (-10) 0) 100 1) = 10.
Proof. reflexivity. Qed.

Example Update_twice_clamps :
  integral (updates (Init 1 1 0 1 (-1) 1000 (-1000) 0) [(5, 1)]) = 1 /\
  integral (updates (Init 1 1 0 1 (-1) 1000 (-1000) 0) [(5, 1); (5, 1)]) = 1.
Proof. split; reflexivity. Qed.

(** With the clamp that [Configure] passes to [Init] when [i_max] and
    [i_min] are not given, the accumulator of the configured controller stays
    within [[-1, 1]] over every sequence of updates. *)
Lemma Configure_default_clamp entity sdf ecm calls :
  sdf_use_force_commands sdf = Some true ->
  sdf_i_max sdf = None ->
  sdf_i_min sdf = None ->
  Model_Valid ecm entity = true ->
  default EmptyString (sdf_joint_name sdf) <> EmptyString ->
  -1 <= integral (updates (velPid (fst (Configure JointController_new entity sdf ecm))) calls) /\
  integral (updates (velPid (fst (Configure JointController_new entity sdf ecm))) calls) <= 1.
Proof.
  intros Hforce Hmax Hmin Hvalid Hname.
  assert (Hpid : iMin (velPid (fst (Configure JointController_new entity sdf ecm))) = -1 /\
                 iMax (velPid (fst (Configure JointController_new entity sdf ecm))) = 1 /\
                 integral (velPid (fst (Configure JointController_new entity sdf ecm))) = 0).
  { unfold Configure. simpl. rewrite Hvalid. simpl.
    destruct (String.eqb_spec (default EmptyString (sdf_joint_name sdf)) EmptyString);
      [contradiction|].
    rewrite Hforce, Hmax, Hmin. by destruct (sdf_initial_velocity sdf). }
  destruct Hpid as (Hlo & Hhi & Hacc).
  pose proof (updates_invariant
                (velPid (fst (Configure JointController_new entity sdf ecm))) calls)
    as Hinv.
  rewrite Hlo, Hhi, Hacc in Hinv. apply Hinv; lra.
Qed.


End PIDProperties.

(** * The properties on the small world *)

Section Witnesses.

Import Examples.

Local Abbreviation PreUpdate0 := (PreUpdate accept_all []).
Local Abbreviation run0 := (run accept_all []).
Local Abbreviation final0 := (final accept_all []).

(** A paused step of the resolved velocity controller. *)
Lemma PreUpdate_paused_noop_witness :
  paused tick_paused = true /\
  jointEntity velocity_resolved <> kNullEntity /\
  exists r, PreUpdate0 velocity_resolved tick_paused world_moving = Returned r /\
            res_ecm r = world_moving /\
            res_this r = velocity_resolved /\
            velPid (res_this r) = velPid velocity_resolved /\
            jointVelCmd (res_this r) = jointVelCmd velocity_resolved /\
            Forall (fun c => mutates_store c = false) (res_calls r).
Proof.
  split; [reflexivity|]. split; [vm_compute; lia|].
  apply PreUpdate_paused_noop; [reflexivity | vm_compute; lia].
Defined.

(** Two steps and a command message after the joint was found. *)
Lemma resolution_monotone_witness :
  jointEntity velocity_resolved <> kNullEntity /\
  jointEntity
    (final0 velocity_resolved [Step tick world; CmdVelMsg 2; Step tick world_moving]) =
    jointEntity velocity_resolved.
Proof.
  split; [vm_compute; lia|].
  apply (resolution_monotone accept_all [] velocity_resolved
           [Step tick world; CmdVelMsg 2; Step tick world_moving]).
  vm_compute; lia.
Defined.

(** The velocity controller over a creation, a message and a write: the
    force command is left alone. *)
Lemma mode_exclusivity_witness :
  Forall (step_leaves JointForceCmd)
    (run0 velocity_resolved [Step tick world; CmdVelMsg 2; Step tick world_moving]).
Proof.
  apply (mode_exclusivity accept_all [] velocity_resolved
           [Step tick world; CmdVelMsg 2; Step tick world_moving]).
Defined.

(** The force controller on the moving joint: the error is 3 - 0. *)
Lemma PreUpdate_force_command_witness :
  useForceCommands force_resolved = true /\
  joint_of_step force_resolved world_moving <> kNullEntity /\
  paused tick = false /\
  Component world_moving (joint_of_step force_resolved world_moving) JointVelocity =
    Some [3; 7]%Q /\
  In (PidUpdate (3 - jointVelCmd force_resolved)%Q)
     (outcome_calls (PreUpdate0 force_resolved tick world_moving)).
Proof.
  split; [reflexivity|]. split; [vm_compute; lia|]. split; [reflexivity|].
  split; [reflexivity|].
  apply (PreUpdate_force_command accept_all [] force_resolved tick world_moving
           3%Q [7%Q]
           (fst (PID_Update (velPid force_resolved)
                   (3 - jointVelCmd force_resolved)%Q (dt tick)))
           (snd (PID_Update (velPid force_resolved)
                   (3 - jointVelCmd force_resolved)%Q (dt tick))));
    [reflexivity | vm_compute; lia | reflexivity | reflexivity | reflexivity].
Defined.


(** The force controller on the joint with two axes. *)
Lemma PreUpdate_element0_only_witness :
  joint_of_step force_resolved world_moving <> kNullEntity /\
  paused tick = false /\
  Component world_moving (joint_of_step force_resolved world_moving) JointVelocity =
    Some [3; 7]%Q /\
  Forall index0 (outcome_calls (PreUpdate0 force_resolved tick world_moving)).
Proof.
  split; [vm_compute; lia|]. split; [reflexivity|]. split; [reflexivity|].
  apply (PreUpdate_element0_only accept_all [] force_resolved tick world_moving
           3%Q [7%Q]); [vm_compute; lia | reflexivity | reflexivity].
Defined.

(** Two steps after a configuration without [initial_velocity]. *)
Lemma jointVelCmd_initially_zero_witness :
  sdf_initial_velocity sdf_velocity = None /\
  Forall (fun ev => is_step ev = true) [Step tick world; Step tick world_moving] /\
  jointVelCmd
    (final0 (fst (Configure JointController_new 1%N sdf_velocity world))
       [Step tick world; Step tick world_moving]) = 0%Q.
Proof.
  split; [reflexivity|].
  split; [repeat constructor|].
  apply (jointVelCmd_initially_zero accept_all [] 1%N sdf_velocity world
           [Step tick world; Step tick world_moving]);
    [reflexivity | repeat constructor].
Defined.


(** A step of one millisecond back in time against one forward. *)
Lemma PreUpdate_negative_dt_witness :
  (-1000000 < 0)%Z /\ (0 <= 1000000)%Z /\
  PreUpdate0 force_resolved tick_back world_moving =
  with_warning
    (PreUpdate (H := PID_at_dt PIDSpec.PID_PIDClass (dt tick_back)) accept_all []
       force_resolved tick world_moving).
Proof.
  split; [lia|]. split; [lia|].
  apply (PreUpdate_negative_dt PIDSpec.PID_PIDClass accept_all [] force_resolved
           world_moving (-1000000)%Z 1000000%Z false); lia.
Defined.

(** The controller of the second example scenario of the design document. *)
Lemma integral_within_clamp_witness :
  (PIDSpec.iMin (PIDSpec.Init 1 1 0 1 (-1) 1000 (-1000) 0) <=
   PIDSpec.iMax (PIDSpec.Init 1 1 0 1 (-1) 1000 (-1000) 0))%Q /\
  (forall error dt, 0 < dt ->
     -1 <= PIDSpec.integral
             (snd (PIDSpec.Update (PIDSpec.Init 1 1 0 1 (-1) 1000 (-1000) 0) error dt)) /\
     PIDSpec.integral
       (snd (PIDSpec.Update (PIDSpec.Init 1 1 0 1 (-1) 1000 (-1000) 0) error dt)) <= 1)%Q.
Proof.
  split; [vm_compute; discriminate|].
  apply (integral_within_clamp (PIDSpec.Init 1 1 0 1 (-1) 1000 (-1000) 0)).
  vm_compute; discriminate.
Defined.

(** ** Runs on the small world *)

(** The velocity controller: the first step finds the joint and requests
    the velocity component; after a command message of 2, the next step
    creates the velocity command holding 2. *)
Example velocity_run_calls :
  map (fun s => outcome_calls (snd s))
      (run0 velocity_controller [Step tick world; CmdVelMsg 2; Step tick world_moving]) =
  [[JointByName 1%N "arm"; GetComponent 2%N JointVelocity;
    CreateComponentCall 2%N JointVelocity []];
   [GetComponent 2%N JointVelocity; GetComponent 2%N JointVelocityCmd;
    CreateComponentCall 2%N JointVelocityCmd [2%Q]]].
Proof. reflexivity. Qed.

(** The force controller on the moving joint: error 3, proportional term 3,
    integral term 3 * 0.001, so the force command is 3.003. *)
Example force_step_command :
  match outcome_result (PreUpdate0 force_resolved tick world_moving) with
  | Some r =>
      match Component (res_ecm r) 2%N JointForceCmd with
      | Some [f] => Qeq_bool f (3003 # 1000)
      | _ => false
      end
  | None => false
  end = true.
Proof. vm_compute. reflexivity. Qed.

(** A force-mode step on a velocity component without elements throws. *)
Example force_step_throws :
  exists r, PreUpdate0 force_resolved tick (SetData world 2%N JointVelocity []) =
            Throws_out_of_range r /\
            res_this r = force_resolved.
Proof. eexists. split; reflexivity. Qed.

(** A velocity-mode step on a command component without elements assigns
    element 0 of an empty vector. *)
Example velocity_step_undefined :
  PreUpdate0 velocity_resolved tick (SetData world_moving 2%N JointVelocityCmd []) =
  Undefined [GetComponent 2%N JointVelocity; GetComponent 2%N JointVelocityCmd;
             DataAssign 2%N JointVelocityCmd 0 0%Q].
Proof. reflexivity. Qed.


(** ** The further properties on the small world *)

Lemma PreUpdate_velocity_command_witness :
  useForceCommands velocity_resolved = false /\
  joint_of_step velocity_resolved world_moving <> kNullEntity /\
  paused tick = false /\
  Component world_moving (joint_of_step velocity_resolved world_moving) JointVelocity =
    Some [3; 7]%Q /\
  (Component world_moving (joint_of_step velocity_resolved world_moving)
     JointVelocityCmd = None ->
   exists r, PreUpdate0 velocity_resolved tick world_moving = Returned r /\
             res_this r = fst (resolve velocity_resolved world_moving)).
Proof.
  split; [reflexivity|]. split; [vm_compute; lia|]. split; [reflexivity|].
  split; [reflexivity|]. intros Hnone.
  destruct (PreUpdate_velocity_command accept_all [] velocity_resolved tick world_moving
              [3; 7]%Q) as [Habsent _];
    [reflexivity | vm_compute; lia | reflexivity | reflexivity |].
  destruct (Habsent Hnone) as (r & Hr & Hthis & _).
  exists r. split; [exact Hr | exact Hthis].
Defined.

Lemma PreUpdate_force_empty_velocity_throws_witness :
  useForceCommands force_resolved = true /\
  joint_of_step force_resolved world_created <> kNullEntity /\
  paused tick = false /\
  Component world_created (joint_of_step force_resolved world_created) JointVelocity =
    Some [] /\
  exists r, PreUpdate0 force_resolved tick world_created = Throws_out_of_range r /\
            res_ecm r = world_created.
Proof.
  split; [reflexivity|]. split; [vm_compute; lia|]. split; [reflexivity|].
  split; [reflexivity|].
  destruct (PreUpdate_force_empty_velocity_throws accept_all [] force_resolved tick
              world_created) as (r & Hr & Hecm & _);
    [reflexivity | vm_compute; lia | reflexivity | reflexivity |].
  exists r. split; [exact Hr | exact Hecm].
Defined.

Lemma PreUpdate_frame_witness :
  exists r, outcome_result (PreUpdate0 velocity_resolved tick world_moving) = Some r /\
            joints (res_ecm r) = joints world_moving /\
            Component (res_ecm r) 2%N JointVelocity = Some [3; 7]%Q.
Proof.
  eexists. split; [reflexivity|].
  destruct (PreUpdate_frame accept_all [] velocity_resolved tick world_moving _ eq_refl)
    as (_ & Hjoints & _ & Hvel).
  split; [exact Hjoints | apply Hvel; reflexivity].
Defined.

Lemma velocity_mode_never_uses_pid_witness :
  useForceCommands velocity_resolved = false /\
  velPid (final0 velocity_resolved [Step tick world; CmdVelMsg 2; Step tick world_moving]) =
    velPid velocity_resolved.
Proof.
  split; [reflexivity|].
  apply (velocity_mode_never_uses_pid accept_all [] velocity_resolved
           [Step tick world; CmdVelMsg 2; Step tick world_moving]).
  reflexivity.
Defined.

Lemma lookup_retried_every_step_witness :
  jointEntity velocity_controller = kNullEntity /\
  Forall (step_retries velocity_controller)
    (run0 velocity_controller
       [Step tick world_empty; CmdVelMsg 2; Step tick_paused world_empty]).
Proof.
  split; [reflexivity|].
  apply (lookup_retried_every_step accept_all [] velocity_controller
           [Step tick world_empty; CmdVelMsg 2; Step tick_paused world_empty]);
    [reflexivity|].
  intros info ecm [Heq | [Heq | [Heq | []]]]; inversion Heq; reflexivity.
Defined.

Lemma PreUpdate_paused_resolves_witness :
  paused tick_paused = true /\
  jointEntity velocity_controller = kNullEntity /\
  exists r, PreUpdate0 velocity_controller tick_paused world = Returned r /\
            jointEntity (res_this r) = 2%N.
Proof.
  split; [reflexivity|]. split; [reflexivity|].
  destruct (PreUpdate_paused_resolves accept_all [] velocity_controller tick_paused world)
    as (r & Hr & Hjoint & _); [reflexivity | reflexivity |].
  exists r. split; [exact Hr | exact Hjoint].
Defined.

Lemma velocity_command_created_then_overwritten_witness :
  exists r, PreUpdate0 velocity_resolved tick world_moving = Returned r /\
  exists r', PreUpdate0 (OnCmdVel (res_this r) 2%Q) tick (res_ecm r) = Returned r' /\
             Component (res_ecm r') (joint_of_step velocity_resolved world_moving)
               JointVelocityCmd = Some [2%Q].
Proof.
  eexists. split; [reflexivity|].
  destruct (velocity_command_created_then_overwritten accept_all [] velocity_resolved
              tick tick world_moving [3; 7]%Q 2%Q _
              eq_refl ltac:(vm_compute; lia) eq_refl eq_refl eq_refl eq_refl eq_refl eq_refl)
    as (r' & Hr' & _ & _ & Hcmd).
  exists r'. split; [exact Hr' | exact Hcmd].
Defined.

Lemma velocity_step_idempotent_witness :
  exists r, PreUpdate0 velocity_resolved tick world_moving = Returned r /\
  exists r', PreUpdate0 (res_this r) tick (res_ecm r) = Returned r' /\
             res_ecm r' = res_ecm r.
Proof.
  eexists. split; [reflexivity|].
  destruct (velocity_step_idempotent accept_all [] velocity_resolved tick world_moving
              [3; 7]%Q _ eq_refl ltac:(vm_compute; lia) eq_refl eq_refl eq_refl)
    as (r' & Hr' & _ & Hecm).
  exists r'. split; [exact Hr' | exact Hecm].
Defined.

Lemma first_step_looks_up_configured_joint_witness :
  Configure_ok 1%N sdf_velocity world = true /\
  In (JointByName 1%N "arm")
     (outcome_calls
        (PreUpdate0 (fst (Configure JointController_new 1%N sdf_velocity world))
           tick world)).
Proof.
  split; [reflexivity|].
  apply (first_step_looks_up_configured_joint accept_all [] 1%N sdf_velocity world
           tick world).
  reflexivity.
Defined.

Lemma step_after_velocity_creation_witness :
  exists r, PreUpdate0 velocity_resolved tick world = Returned r /\
            Component (res_ecm r) (joint_of_step velocity_resolved world) JointVelocity =
              Some [].
Proof.
  eexists. split; [reflexivity|].
  apply (step_after_velocity_creation accept_all [] velocity_resolved tick tick world _
           ltac:(vm_compute; lia) eq_refl eq_refl eq_refl eq_refl eq_refl).
Defined.


End Witnesses.

(** * Where the design document and the code differ *)

Section Counterexamples.

Import Examples.



(** C7 as stated fails: with [iMin = 1] and [iMax = 2], an update with a
    negative duration leaves the accumulator at its initial 0, below
    [iMin]. *)
Lemma integral_always_clamped_counterexample :
  ~ PIDSpec.integral_always_clamped_as_stated.
Proof.
  intros Hclaim.
  destruct (Hclaim 1 1 0 2 1 1000 (-1000) 0 [(5, -1)])%Q as [Hlow _]; [done|].
  vm_compute in Hlow. by apply Hlow.
Qed.

(** C5 as stated fails in two places.  With a force-command component that
    exists but holds no element, the step advances the PID controller and
    then assigns element 0 of the empty vector: it does not return.  With a
    store that rejects the creation, the step returns and the joint still has
    no force-command component. *)
Lemma force_command_counterexample :
  ~ force_command_as_stated (PID := PIDSpec.PID) accept_all [] /\
  ~ force_command_as_stated (PID := PIDSpec.PID) reject_all [].
Proof.
  split; intros Hclaim.
  - destruct (Hclaim force_resolved tick world_force_empty 3%Q [7%Q]
                (fst (PID_Update (velPid force_resolved)
                        (3 - jointVelCmd force_resolved)%Q (dt tick)))
                (snd (PID_Update (velPid force_resolved)
                        (3 - jointVelCmd force_resolved)%Q (dt tick))))
      as (r & rest & Hr & _);
      [reflexivity | vm_compute; lia | reflexivity | reflexivity | reflexivity |].
    vm_compute in Hr. discriminate Hr.
  - destruct (Hclaim force_resolved tick world_moving 3%Q [7%Q]
                (fst (PID_Update (velPid force_resolved)
                        (3 - jointVelCmd force_resolved)%Q (dt tick)))
                (snd (PID_Update (velPid force_resolved)
                        (3 - jointVelCmd force_resolved)%Q (dt tick))))
      as (r & rest & Hr & _ & Hslot);
      [reflexivity | vm_compute; lia | reflexivity | reflexivity | reflexivity |].
    vm_compute in Hr. injection Hr as <-.
    vm_compute in Hslot. discriminate Hslot.
Qed.


End Counterexamples.
